(** * Shallow embedding of gunpowder's [BatchRequest] (batch_request.py) and
    of the [BalanceLabels] node (nodes/balance_labels.py).

    Python objects that are mutated in place (the spec objects held by a
    request) live in an explicit heap of locations; requests hold their two
    dicts [array_specs] and [graph_specs] as association lists from key
    names to locations.  Exceptions are modelled by [Error]; as in Python,
    the heap keeps the writes done before an exception is raised. *)

From Stdlib Require Import ZArith QArith Qfield Qround Qminmax String List Lia Lqa.
From stdpp Require Import base gmap.

Local Open Scope Z_scope.

(* ------------------------------------------------------------------ *)
(** ** Errors and the exception/state monad *)

Inductive Err :=
| DimensionMismatch   (* Coordinate / Roi operation on different dims *)
| AttributeError      (* attribute access on [None] *)
| KeyError            (* missing dict key *)
| AssertionError      (* failed [assert] *)
| DanglingRef.        (* never raised on well-formed heaps *)

Inductive Result (A : Type) :=
| Ok (a : A)
| Error (e : Err).
Arguments Ok {A} a.
Arguments Error {A} e.

Global Instance result_ret : MRet Result := fun A a => Ok a.
Global Instance result_bind : MBind Result :=
  fun A B f r => match r with Ok a => f a | Error e => Error e end.

(* ------------------------------------------------------------------ *)
(** ** Coordinate and Roi

    [Coordinate] and [Roi] are not part of the excerpt.

    Modelled from the spec: Coordinate and Roi (roi.py / coordinate.py).
    A coordinate is an integer tuple; binary operations require equal
    dimensionality and fail with a dimension mismatch otherwise.  A Roi is
    [(offset, shape)]; [get_center] is [offset + shape/2] where the halving
    of the integer tuple is the integer one ([int(a/2)], i.e. [Z.quot]);
    [shift] translates the offset; [union] takes the componentwise min of
    the offsets and the max of the far corners [offset + shape]. *)

Definition Coordinate := list Z.

Fixpoint coord_zip (f : Z -> Z -> Z) (a b : Coordinate) : Result Coordinate :=
  match a, b with
  | [], [] => Ok []
  | x :: a', y :: b' => c ← coord_zip f a' b'; Ok (f x y :: c)
  | _, _ => Error DimensionMismatch
  end.

Definition coord_add := coord_zip Z.add.
Definition coord_sub := coord_zip Z.sub.
Definition coord_half (a : Coordinate) : Coordinate := map (fun x => Z.quot x 2) a.

Record Roi := mkRoi { roi_offset : Coordinate; roi_shape : Coordinate }.

Definition get_begin (r : Roi) : Coordinate := roi_offset r.
Definition get_end (r : Roi) : Result Coordinate := coord_add (roi_offset r) (roi_shape r).

Definition get_center (r : Roi) : Result Coordinate :=
  coord_add (roi_offset r) (coord_half (roi_shape r)).

Definition shift (r : Roi) (by_ : Coordinate) : Result Roi :=
  o ← coord_add (roi_offset r) by_; Ok (mkRoi o (roi_shape r)).

Definition union (a b : Roi) : Result Roi :=
  b1 ← coord_zip Z.min (get_begin a) (get_begin b);
  ea ← get_end a; eb ← get_end b;
  e1 ← coord_zip Z.max ea eb;
  s ← coord_sub e1 b1;
  Ok (mkRoi b1 s).

(** [union(None, X) = X] and [union(X, None) = X] (spec, section 4.1). *)
Definition union_opt (a b : option Roi) : Result (option Roi) :=
  match a, b with
  | None, _ => Ok b
  | Some x, None => Ok (Some x)
  | Some x, Some y => u ← union x y; Ok (Some u)
  end.

(* ------------------------------------------------------------------ *)
(** ** Keys and specs *)

Inductive Key :=
| ArrayKey (name : string)
| GraphKey (name : string).

Definition DType := string.

Record ArraySpec := mkArraySpec {
  a_roi : option Roi;
  a_voxel_size : option Coordinate;
  a_dtype : option DType;
  a_nonspatial : bool }.

Record GraphSpec := mkGraphSpec {
  g_roi : option Roi;
  g_dtype : option DType }.

(** Modelled from the spec: [ArraySpec()] and [GraphSpec()] (array_spec.py
    and graph_spec.py, not in the excerpt).  [ArraySpec()] leaves every
    field unset and is spatial; [GraphSpec()] leaves the ROI unset and
    defaults its dtype to [np.float32]. *)
Definition ArraySpec_new : ArraySpec := mkArraySpec None None None false.
Definition GraphSpec_new : GraphSpec := mkGraphSpec None (Some "float32"%string).

Inductive Spec :=
| SArray (a : ArraySpec)
| SGraph (g : GraphSpec).

Definition spec_roi (s : Spec) : option Roi :=
  match s with SArray a => a_roi a | SGraph g => g_roi g end.

Definition spec_set_roi (s : Spec) (r : option Roi) : Spec :=
  match s with
  | SArray a => SArray (mkArraySpec r (a_voxel_size a) (a_dtype a) (a_nonspatial a))
  | SGraph g => SGraph (mkGraphSpec r (g_dtype g))
  end.

Definition is_array_spec (s : Spec) : bool :=
  match s with SArray _ => true | SGraph _ => false end.

(** [isinstance(spec, ArraySpec) and spec.nonspatial] *)
Definition spec_nonspatial (s : Spec) : bool :=
  match s with SArray a => a_nonspatial a | SGraph _ => false end.

(* ------------------------------------------------------------------ *)
(** ** The heap of mutable spec objects and the state/exception monad *)

Abbreviation loc := nat (only parsing).

Record State := mkState { heap : gmap loc Spec; next_loc : loc }.

(** A computation returns a result and the state reached, also when it
    raises: Python does not roll back the writes done before a raise. *)
Definition M (A : Type) := State -> Result A * State.

Definition retM {A} (a : A) : M A := fun s => (Ok a, s).
Definition bindM {A B} (m : M A) (k : A -> M B) : M B :=
  fun s => match m s with
           | (Ok a, s') => k a s'
           | (Error e, s') => (Error e, s')
           end.
Definition raise {A} (e : Err) : M A := fun s => (Error e, s).
Definition liftR {A} (r : Result A) : M A := fun s => (r, s).

Notation "'do' x <- m ; k" := (bindM m (fun x => k))
  (at level 200, x name, m at level 100, right associativity).

(** Allocate a fresh object. *)
Definition alloc (v : Spec) : M loc :=
  fun s => (Ok (next_loc s), mkState (<[next_loc s := v]> (heap s)) (S (next_loc s))).

Definition deref (l : loc) : M Spec :=
  fun s => match heap s !! l with
           | Some v => (Ok v, s)
           | None => (Error DanglingRef, s)
           end.

Definition write (l : loc) (v : Spec) : M unit :=
  fun s => (Ok tt, mkState (<[l := v]> (heap s)) (next_loc s)).

Fixpoint mapM_ {A} (f : A -> M unit) (xs : list A) : M unit :=
  match xs with
  | [] => retM tt
  | x :: xs' => do _ <- f x; mapM_ f xs'
  end.

Fixpoint foldM {A B} (f : B -> A -> M B) (acc : B) (xs : list A) : M B :=
  match xs with
  | [] => retM acc
  | x :: xs' => do acc' <- f acc x; foldM f acc' xs'
  end.

(* ------------------------------------------------------------------ *)
(** ** Python dicts keyed by key names (each key at most once) *)

Definition dict := list (string * loc).

Fixpoint dict_get (d : dict) (k : string) : option loc :=
  match d with
  | [] => None
  | (k', v) :: d' => if String.eqb k' k then Some v else dict_get d' k
  end.

(** [d[k] = v]: replaces in place, or appends a new key. *)
Fixpoint dict_set (d : dict) (k : string) (v : loc) : dict :=
  match d with
  | [] => [(k, v)]
  | (k', v') :: d' => if String.eqb k' k then (k', v) :: d' else (k', v') :: dict_set d' k v
  end.

(** [del d[k]] *)
Definition dict_del (d : dict) (k : string) : dict :=
  List.filter (fun kv => negb (String.eqb (fst kv) k)) d.

(* ------------------------------------------------------------------ *)
(** ** [ProviderSpec] storage used by [BatchRequest] *)

Record BatchRequest := mkRequest { array_specs : dict; graph_specs : dict }.

Definition BatchRequest_new : BatchRequest := mkRequest [] [].

(** [self[key]] (as a reference), [key in self] *)
Definition req_get (r : BatchRequest) (k : Key) : option loc :=
  match k with
  | ArrayKey n => dict_get (array_specs r) n
  | GraphKey n => dict_get (graph_specs r) n
  end.

Definition req_contains (r : BatchRequest) (k : Key) : bool :=
  match req_get r k with Some _ => true | None => false end.

Definition req_set_loc (r : BatchRequest) (k : Key) (l : loc) : BatchRequest :=
  match k with
  | ArrayKey n => mkRequest (dict_set (array_specs r) n l) (graph_specs r)
  | GraphKey n => mkRequest (array_specs r) (dict_set (graph_specs r) n l)
  end.

(** [del self[key]] *)
Definition req_del (r : BatchRequest) (k : Key) : BatchRequest :=
  match k with
  | ArrayKey n => mkRequest (dict_del (array_specs r) n) (graph_specs r)
  | GraphKey n => mkRequest (array_specs r) (dict_del (graph_specs r) n)
  end.

(** [self.items()]: the array specs, then the graph specs. *)
Definition items (r : BatchRequest) : list (Key * loc) :=
  map (fun kv => (ArrayKey (fst kv), snd kv)) (array_specs r)
  ++ map (fun kv => (GraphKey (fst kv), snd kv)) (graph_specs r).

(** The spec objects a request refers to. *)
Definition locs (r : BatchRequest) : list loc := map snd (items r).

(** Modelled from the spec: [ProviderSpec.__setitem__] (provider_spec.py,
    not in the excerpt).  The spec states that specs are never shared
    across requests: "every mutating operation returns or stores a fresh
    copy".  Setting [self[key] = spec] stores a fresh copy of [spec]. *)
Definition setitem (r : BatchRequest) (k : Key) (v : Spec) : M BatchRequest :=
  do l <- alloc v; retM (req_set_loc r k l).

(** Modelled from the spec: [ProviderSpec.get_total_roi] (not in the
    excerpt): the union of the ROIs of all spatial entries with a defined
    ROI, [None] if there is none. *)
Definition get_total_roi (r : BatchRequest) : M (option Roi) :=
  foldM (fun total kl =>
           do v <- deref (snd kl);
           if spec_nonspatial v then retM total
           else liftR (union_opt total (spec_roi v)))
        None (items r).

(* ------------------------------------------------------------------ *)
(** ** [BatchRequest] (batch_request.py) *)

(** [copy.deepcopy(self)]: fresh dicts holding fresh spec objects. *)
Fixpoint copy_dict (d : dict) : M dict :=
  match d with
  | [] => retM []
  | (k, l) :: d' =>
      do v <- deref l; do l' <- alloc v; do d'' <- copy_dict d'; retM ((k, l') :: d'')
  end.

Definition copy (r : BatchRequest) : M BatchRequest :=
  do a <- copy_dict (array_specs r);
  do g <- copy_dict (graph_specs r);
  retM (mkRequest a g).

(** Loop body of [__center_rois]:
    [roi = spec.roi; spec.roi = roi.shift(center - roi.get_center())]. *)
Definition center_roi_at (center : Coordinate) (l : loc) : M unit :=
  do v <- deref l;
  match spec_roi v with
  | None => raise AttributeError
  | Some roi =>
      do c <- liftR (get_center roi);
      do d <- liftR (coord_sub center c);
      do roi' <- liftR (shift roi d);
      write l (spec_set_roi v (Some roi'))
  end.

Definition center_rois (r : BatchRequest) : M unit :=
  do total <- get_total_roi r;
  match total with
  | None => retM tt
  | Some t =>
      do center <- liftR (get_center t);
      mapM_ (center_roi_at center) (map snd (array_specs r) ++ map snd (graph_specs r))
  end.

(** [add(key, shape, voxel_size)].  Only [ArrayKey] and [GraphKey] exist in
    [Key], so the [RuntimeError] branch is excluded by the type.  A
    [GraphSpec] has no [voxel_size] field. *)
Definition add (r : BatchRequest) (key : Key) (shape : Coordinate)
    (voxel_size : option Coordinate) : M BatchRequest :=
  let roi := mkRoi (repeat 0 (length shape)) shape in
  let spec :=
    match key with
    | ArrayKey _ =>
        SArray (mkArraySpec (Some roi)
                  (match voxel_size with Some v => Some v | None => a_voxel_size ArraySpec_new end)
                  (a_dtype ArraySpec_new) (a_nonspatial ArraySpec_new))
    | GraphKey _ => SGraph (mkGraphSpec (Some roi) (g_dtype GraphSpec_new))
    end in
  do r' <- setitem r key spec;
  do _ <- center_rois r';
  retM r'.

(** [merge(request)] *)
Definition merge_step (merged : BatchRequest) (kl : Key * loc) : M BatchRequest :=
  let (key, l) := kl in
  do spec <- deref l;
  match req_get merged key with
  | None => setitem merged key spec
  | Some ml =>
      do mspec <- deref ml;
      if is_array_spec spec && spec_nonspatial mspec then setitem merged key spec
      else match spec_roi mspec with
           | None => raise AttributeError
           | Some mroi =>
               do u <- liftR (union_opt (Some mroi) (spec_roi spec));
               do _ <- write ml (spec_set_roi mspec u);
               retM merged
           end
  end.

Definition merge (self request : BatchRequest) : M BatchRequest :=
  do merged <- copy self;
  foldM merge_step merged (items request).

(* ------------------------------------------------------------------ *)
(** ** Reading a request back *)

Definition empty_state : State := mkState ∅ 0%nat.

(** The spec value stored for [k] in [r]. *)
Definition spec_of (s : State) (r : BatchRequest) (k : Key) : option Spec :=
  match req_get r k with Some l => heap s !! l | None => None end.

(** Run a sequence of [add] calls, from an empty request. *)
Definition run_adds (ops : list (Key * Coordinate * option Coordinate)) : M BatchRequest :=
  foldM (fun r op => let '(k, sh, vs) := op in add r k sh vs) BatchRequest_new ops.

(* ------------------------------------------------------------------ *)
(** ** [BalanceLabels] (nodes/balance_labels.py)

    Array elements are modelled as exact rationals: the float32/float64
    rounding of numpy is abstracted away.  An array is its shape and its
    elements in row-major order. *)

Local Open Scope Q_scope.

Record NdArray := mkNdArray { nd_shape : list nat; nd_data : list Q }.

Record Volume := mkVolume { vol_data : NdArray; vol_spec : ArraySpec }.

Definition key_eqb (a b : Key) : bool :=
  match a, b with
  | ArrayKey x, ArrayKey y => String.eqb x y
  | GraphKey x, GraphKey y => String.eqb x y
  | _, _ => false
  end.

(** [batch.volumes], a dict from keys to volumes. *)
Record Batch := mkBatch { volumes : list (Key * Volume) }.

Fixpoint vol_lookup (vs : list (Key * Volume)) (k : Key) : option Volume :=
  match vs with
  | [] => None
  | (k', v) :: vs' => if key_eqb k' k then Some v else vol_lookup vs' k
  end.

Fixpoint vol_set (vs : list (Key * Volume)) (k : Key) (v : Volume) : list (Key * Volume) :=
  match vs with
  | [] => [(k, v)]
  | (k', v') :: vs' => if key_eqb k' k then (k', v) :: vs' else (k', v') :: vol_set vs' k v
  end.

Definition batch_get (b : Batch) (k : Key) : Result Volume :=
  match vol_lookup (volumes b) k with Some v => Ok v | None => Error KeyError end.

(** The node's attributes; [bl_scales_spec] is [self.spec[self.scales]]
    as declared by [setup]. *)
Record BalanceLabels := mkBalanceLabels {
  bl_labels : Key;
  bl_scales : Key;
  bl_masks : list Key;
  bl_skip_next : bool;
  bl_scales_spec : ArraySpec }.

Definition set_skip_next (n : BalanceLabels) (b : bool) : BalanceLabels :=
  mkBalanceLabels (bl_labels n) (bl_scales n) (bl_masks n) b (bl_scales_spec n).

(** [prepare(request)]: mutates the node and the request. *)
Definition prepare (n : BalanceLabels) (request : BatchRequest) : BalanceLabels * BatchRequest :=
  let n := set_skip_next n true in
  if req_contains request (bl_scales n)
  then (set_skip_next n false, req_del request (bl_scales n))
  else (n, request).

(** Elementwise product of equally shaped arrays. *)
Fixpoint mul_elems (a b : list Q) : list Q :=
  match a, b with
  | x :: a', y :: b' => x * y :: mul_elems a' b'
  | _, _ => []
  end.

Definition sumQ (a : list Q) : Q := fold_right Qplus 0 a.

(** [np.clip(x, lo, hi)] *)
Definition clip (x lo hi : Q) : Q := Qmin (Qmax x lo) hi.

(** [np.floor(np.clip(x + 0.5, a_min=0, a_max=1))] *)
Definition binarize (x : Q) : Q := inject_Z (Qfloor (clip (x + (1#2)) 0 1)).

(** The initial [error_scale = np.ones(...)] multiplied by every mask, with
    the shape assertion. *)
Fixpoint apply_masks (b : Batch) (labels : NdArray) (masks : list Key) (es : list Q)
    : Result (list Q) :=
  match masks with
  | [] => Ok es
  | m :: ms =>
      mask ← batch_get b m;
      if decide (nd_shape labels = nd_shape (vol_data mask))
      then apply_masks b labels ms (mul_elems es (nd_data (vol_data mask)))
      else Error AssertionError
  end.

Definition mask_product (b : Batch) (labels : NdArray) (masks : list Key) : Result (list Q) :=
  apply_masks b labels masks (repeat 1 (length (nd_data labels))).

(** The intermediate values of [process]. *)
Record ClassWeights := mkClassWeights {
  masked_in : Q;
  num_pos : Q;
  frac_pos_raw : Q;   (* before the clip *)
  frac_pos : Q;
  frac_neg : Q;
  w_pos : Q;
  w_neg : Q }.

Definition class_weights (labels_binary error_scale : list Q) : ClassWeights :=
  let masked_in := sumQ error_scale in
  let num_pos := sumQ (mul_elems labels_binary error_scale) in
  let frac_pos_raw := if Qlt_le_dec 0 masked_in then num_pos / masked_in else 0 in
  let frac_pos := clip frac_pos_raw (1#20) (19#20) in
  let frac_neg := 1 - frac_pos in
  mkClassWeights masked_in num_pos frac_pos_raw frac_pos frac_neg
    (1 / (2 * frac_pos)) (1 / (2 * frac_neg)).

(** [(labels_binary >= 0.5) * w_pos + (labels_binary < 0.5) * w_neg] *)
Definition class_weight (cw : ClassWeights) (lb : Q) : Q :=
  (if Qle_bool (1#2) lb then 1 else 0) * w_pos cw
  + (if Qle_bool (1#2) lb then 0 else 1) * w_neg cw.

Definition scale_data (labels_binary error_scale : list Q) : list Q :=
  mul_elems error_scale (map (class_weight (class_weights labels_binary error_scale)) labels_binary).

Definition compute_scales (n : BalanceLabels) (b : Batch) : Result Batch :=
  labels ← batch_get b (bl_labels n);
  es ← mask_product b (vol_data labels) (bl_masks n);
  let labels_binary := map binarize (nd_data (vol_data labels)) in
  let out := mkNdArray (nd_shape (vol_data labels)) (scale_data labels_binary es) in
  let sp := bl_scales_spec n in
  let spec := mkArraySpec (a_roi (vol_spec labels)) (a_voxel_size sp) (a_dtype sp) (a_nonspatial sp) in
  Ok (mkBatch (vol_set (volumes b) (bl_scales n) (mkVolume out spec))).

(** [process(batch, request)]: returns the batch (mutated in place in
    Python) and the node with its updated [skip_next]. *)
Definition process (n : BalanceLabels) (b : Batch) (request : BatchRequest)
    : Result Batch * BalanceLabels :=
  if bl_skip_next n then (Ok b, set_skip_next n false)
  else (compute_scales n b, n).

(** [self.spec] of the node as [setup] reads it: the specs provided
    upstream, a dict from keys to array specs. *)
Definition SpecMap := list (Key * ArraySpec).

Fixpoint spec_lookup (m : SpecMap) (k : Key) : option ArraySpec :=
  match m with
  | [] => None
  | (k', v) :: m' => if key_eqb k' k then Some v else spec_lookup m' k
  end.

Definition spec_provided (m : SpecMap) (k : Key) : bool :=
  match spec_lookup m k with Some _ => true | None => false end.

(** [setup()]: the two provision assertions, then
    [spec = self.spec[self.labels].copy(); spec.dtype = np.float32] and
    [self.provides(self.scales, spec)].  The provided spec is what
    [process] later reads back as [self.spec[self.scales]], so it is
    recorded as [bl_scales_spec]. *)
Definition setup (n : BalanceLabels) (spec : SpecMap) : Result BalanceLabels :=
  match spec_lookup spec (bl_labels n) with
  | None => Error AssertionError
  | Some ls =>
      if forallb (spec_provided spec) (bl_masks n)
      then Ok (mkBalanceLabels (bl_labels n) (bl_scales n) (bl_masks n) (bl_skip_next n)
                 (mkArraySpec (a_roi ls) (a_voxel_size ls) (Some "float32"%string) (a_nonspatial ls)))
      else Error AssertionError
  end.

(* ------------------------------------------------------------------ *)
(** ** Well-formed requests and the value [merge] stores for one key *)

Local Close Scope Q_scope.

Definition in_array_dict (s : State) (kl : string * loc) : Prop :=
  match heap s !! snd kl with Some (SArray _) => True | _ => False end.

Definition in_graph_dict (s : State) (kl : string * loc) : Prop :=
  match heap s !! snd kl with Some (SGraph _) => True | _ => False end.

(** A request as Python holds it: its spec objects are allocated, each dict
    holds a key once, and [ProviderSpec.__setitem__] only lets array specs
    into [array_specs] and graph specs into [graph_specs]. *)
Definition req_wf (s : State) (r : BatchRequest) : Prop :=
  Forall (fun l => l < next_loc s)%nat (locs r) /\
  List.NoDup (map fst (array_specs r)) /\ List.NoDup (map fst (graph_specs r)) /\
  Forall (in_array_dict s) (array_specs r) /\ Forall (in_graph_dict s) (graph_specs r).

(** What one iteration of [merge] leaves under a key, from the merged
    request's spec [old] (if any) and the incoming spec [inc]. *)
Definition merge_value (old : option Spec) (inc : Spec) : Result Spec :=
  match old with
  | None => Ok inc
  | Some ms =>
      if is_array_spec inc && spec_nonspatial ms then Ok inc
      else match spec_roi ms with
           | None => Error AttributeError
           | Some mr => u ← union_opt (Some mr) (spec_roi inc); Ok (spec_set_roi ms u)
           end
  end.

(** During [merge]: the objects below [n0] (those of the inputs) are as in
    [s0], and the merged request only refers to distinct objects allocated
    since. *)
Definition fresh_inv (n0 : loc) (s0 s : State) (merged : BatchRequest) : Prop :=
  (n0 <= next_loc s)%nat /\
  (forall l, (l < n0)%nat -> heap s !! l = heap s0 !! l) /\
  Forall (fun l => n0 <= l < next_loc s)%nat (locs merged) /\
  List.NoDup (locs merged).

(* ------------------------------------------------------------------ *)
(** ** Concrete inputs *)

Open Scope string_scope.

(** [BalanceLabels(labels, scales, mask)] with one mask, after [setup]. *)
Definition bl_example : BalanceLabels :=
  mkBalanceLabels (ArrayKey "labels") (ArrayKey "scales") [ArrayKey "mask"] false
    (mkArraySpec None None (Some "float32") false).

(** The same node without masks. *)
Definition bl_nomask : BalanceLabels :=
  mkBalanceLabels (ArrayKey "labels") (ArrayKey "scales") [] false
    (mkArraySpec None None (Some "float32") false).

Definition vol_of (shape : list nat) (data : list Q) : Volume :=
  mkVolume (mkNdArray shape data) ArraySpec_new.

(** Two requests over one heap: [ex_r1] holds a spatial array spec "a" and
    a nonspatial array spec "n"; [ex_r2] holds array specs "a", "n", "b"
    and a graph spec "g". *)
Definition roi1 (o s : Z) : Roi := mkRoi [o] [s].

Definition ex_a1 : Spec := SArray (mkArraySpec (Some (roi1 0 10)) (Some [4%Z]) (Some "uint8") false).
Definition ex_n1 : Spec := SArray (mkArraySpec None None (Some "float32") true).
Definition ex_a2 : Spec := SArray (mkArraySpec (Some (roi1 5 10)) (Some [4%Z]) (Some "uint8") false).
Definition ex_n2 : Spec := SArray (mkArraySpec None None (Some "int64") true).
Definition ex_b2 : Spec := SArray (mkArraySpec (Some (roi1 2 6)) (Some [4%Z]) None false).
Definition ex_g2 : Spec := SGraph (mkGraphSpec (Some (roi1 0 3)) None).

Definition ex_state : State :=
  mkState (<[0%nat := ex_a1]> (<[1%nat := ex_n1]> (<[2%nat := ex_a2]>
          (<[3%nat := ex_n2]> (<[4%nat := ex_b2]> (<[5%nat := ex_g2]> ∅))))))
    6%nat.

Definition ex_r1 : BatchRequest := mkRequest [("a", 0%nat); ("n", 1%nat)] [].
Definition ex_r2 : BatchRequest :=
  mkRequest [("a", 2%nat); ("n", 3%nat); ("b", 4%nat)] [("g", 5%nat)].

(** A request built by [add] calls: the spatial array spec "a" and the graph
    spec "g" of [ex_state]. *)
Definition ex_r3 : BatchRequest := mkRequest [("a", 0%nat)] [("g", 5%nat)].

(** Componentwise operations on coordinates of equal length, as total
    functions (used to describe the results of [coord_zip]). *)
Fixpoint zipw (f : Z -> Z -> Z) (a b : list Z) : list Z :=
  match a, b with
  | x :: a', y :: b' => f x y :: zipw f a' b'
  | _, _ => []
  end.

(** The ROI of shape [sh] whose center is [c]. *)
Definition centered_roi (c sh : Coordinate) : Roi :=
  mkRoi (zipw (fun ci si => ci - Z.quot si 2) c sh) sh.

(** A [d]-dimensional ROI with a nonnegative shape. *)
Definition roi_ok (d : nat) (x : Roi) : Prop :=
  length (roi_offset x) = d /\ length (roi_shape x) = d /\ Forall (fun z => 0 <= z) (roi_shape x).

Definition opt_roi_ok (d : nat) (o : option Roi) : Prop :=
  match o with None => True | Some x => roi_ok d x end.

(** A [d]-dimensional ROI centered at [c]. *)
Definition roi_centered (d : nat) (c : Coordinate) (x : Roi) : Prop :=
  roi_ok d x /\ x = centered_roi c (roi_shape x).

(** Object [l] is a spatial spec whose ROI is defined and satisfies [P]. *)
Definition loc_roi (P : Roi -> Prop) (s : State) (l : loc) : Prop :=
  exists v x, heap s !! l = Some v /\ spec_nonspatial v = false /\ spec_roi v = Some x /\ P x.

(** What holds of a request built by [add] calls with [d]-dimensional
    nonnegative shapes: every spec is spatial with such a ROI, and the
    request only refers to allocated objects. *)
Definition add_inv (d : nat) (s : State) (r : BatchRequest) : Prop :=
  Forall (loc_roi (roi_ok d) s) (locs r) /\ Forall (fun l => (l < next_loc s)%nat) (locs r).

(** A request holding a nonspatial array spec "n" (at object 0) whose ROI
    is [roi]. *)
Definition ns_spec (roi : option Roi) : Spec :=
  SArray (mkArraySpec roi None (Some "float32") true).

Definition ns_request : BatchRequest := mkRequest [("n", 0%nat)] [].

Definition ns_state (roi : option Roi) : State := mkState (<[0%nat := ns_spec roi]> ∅) 1%nat.

Local Open Scope Q_scope.

(** A batch for [bl_example]: labels [1; 0; 1; 0] and a mask that
    excludes the third voxel. *)
Definition bl_batch : Batch :=
  mkBatch [(ArrayKey "labels"%string, vol_of [4%nat] [1; 0; 1; 0]);
           (ArrayKey "mask"%string, vol_of [4%nat] [1; 1; 0; 1])].

(** The same with a mask of the wrong shape, and with no mask. *)
Definition bl_batch_bad_mask : Batch :=
  mkBatch [(ArrayKey "labels"%string, vol_of [4%nat] [1; 0; 1; 0]);
           (ArrayKey "mask"%string, vol_of [3%nat] [1; 1; 1])].

Definition bl_batch_no_mask : Batch :=
  mkBatch [(ArrayKey "labels"%string, vol_of [4%nat] [1; 0; 1; 0])].

(** Upstream specs providing the labels and the mask. *)
Definition bl_upstream : SpecMap :=
  [(ArrayKey "labels"%string, mkArraySpec (Some (mkRoi [0%Z] [4%Z])) (Some [2%Z]) (Some "uint8"%string) false);
   (ArrayKey "mask"%string, mkArraySpec (Some (mkRoi [0%Z] [4%Z])) (Some [2%Z]) (Some "uint8"%string) false)].

Local Close Scope Q_scope.

Close Scope string_scope.

(* ================================================================== *)
(** * Lemmas on the dict and request operations *)

Lemma dict_get_del_eq (d : dict) (k : string) : dict_get (dict_del d k) k = None.
Proof.
  induction d as [|[k' v] d IH]; [done|]. unfold dict_del in *; simpl.
  destruct (String.eqb k' k) eqn:E; simpl; [exact IH|].
  rewrite E. exact IH.
Qed.

Lemma dict_get_del_ne (d : dict) (k k' : string) :
  k' <> k -> dict_get (dict_del d k) k' = dict_get d k'.
Proof.
  intros Hne. induction d as [|[k0 v] d IH]; [done|]. unfold dict_del in *; simpl.
  destruct (String.eqb k0 k) eqn:E; simpl.
  - apply String.eqb_eq in E. subst k0.
    destruct (String.eqb k k') eqn:E'; [apply String.eqb_eq in E'; congruence|exact IH].
  - destruct (String.eqb k0 k'); [done|exact IH].
Qed.

Lemma req_get_del_eq (r : BatchRequest) (k : Key) : req_get (req_del r k) k = None.
Proof. destruct k; apply dict_get_del_eq. Qed.

Lemma req_get_del_ne (r : BatchRequest) (k k' : Key) :
  k' <> k -> req_get (req_del r k) k' = req_get r k'.
Proof.
  intros Hne. destruct k as [n|n], k' as [n'|n']; simpl; try done;
    apply dict_get_del_ne; congruence.
Qed.

(* ================================================================== *)
(** * BalanceLabels.prepare *)

(** C10: after [prepare] the scales key is absent from the outgoing
    request, and [skip_next] is set exactly when the scales key was absent
    from the incoming request. *)
Theorem prepare_drops_scales (n : BalanceLabels) (request : BatchRequest) :
  req_contains (snd (prepare n request)) (bl_scales n) = false /\
  bl_skip_next (fst (prepare n request)) = negb (req_contains request (bl_scales n)).
Proof.
  unfold prepare, req_contains; simpl.
  destruct (req_get request (bl_scales n)) eqn:E; simpl.
  - rewrite req_get_del_eq. done.
  - rewrite E. done.
Qed.

(** C7 (as stated, refuted): with the scales key requested, the labels
    key is not added to the outgoing request by [prepare]. *)
Lemma prepare_does_not_add_labels :
  let request := mkRequest [("scales"%string, 0%nat)] [] in
  req_contains request (bl_scales bl_example) = true /\
  req_contains (snd (prepare bl_example request)) (bl_labels bl_example) = false.
Proof. vm_compute. split; reflexivity. Qed.

(** C7 (amended): when the scales key is requested, [prepare] clears
    [skip_next] and removes only the scales key: every other key (labels
    and masks included) is present afterwards exactly when it was present
    before; nothing is added. *)
Theorem prepare_keeps_other_keys (n : BalanceLabels) (request : BatchRequest) :
  req_contains request (bl_scales n) = true ->
  req_contains (snd (prepare n request)) (bl_scales n) = false /\
  (forall k, k <> bl_scales n -> req_contains (snd (prepare n request)) k = req_contains request k) /\
  bl_skip_next (fst (prepare n request)) = false.
Proof.
  intros Hin. unfold prepare; simpl. rewrite Hin; simpl.
  split; [unfold req_contains; rewrite req_get_del_eq; done|].
  split; [|done]. intros k Hne. unfold req_contains. rewrite req_get_del_ne; done.
Qed.

Lemma prepare_keeps_other_keys_witness :
  req_contains (mkRequest [("labels"%string, 1%nat); ("scales"%string, 0%nat)] [])
    (bl_scales bl_example) = true /\
  req_contains (snd (prepare bl_example
     (mkRequest [("labels"%string, 1%nat); ("scales"%string, 0%nat)] []))) (bl_scales bl_example)
  = false /\
  req_contains (snd (prepare bl_example
     (mkRequest [("labels"%string, 1%nat); ("scales"%string, 0%nat)] []))) (ArrayKey "labels")
  = req_contains (mkRequest [("labels"%string, 1%nat); ("scales"%string, 0%nat)] []) (ArrayKey "labels").
Proof.
  assert (Hc : req_contains (mkRequest [("labels"%string, 1%nat); ("scales"%string, 0%nat)] [])
    (bl_scales bl_example) = true) by reflexivity.
  destruct (prepare_keeps_other_keys bl_example _ Hc) as (Hs & Hk & _).
  split; [exact Hc|]. split; [exact Hs|].
  apply Hk. discriminate.
Defined.

(* ================================================================== *)
(** * BalanceLabels.process after a skipping prepare *)

(** C6: when the scales key is not requested, [prepare] leaves the request
    as it is and sets [skip_next]; the following [process] call then returns
    every batch unchanged (it does not even read the labels, so it also
    succeeds on a batch without them) and clears [skip_next]. *)
Theorem skipped_process_is_noop (n : BalanceLabels) (request : BatchRequest) :
  req_contains request (bl_scales n) = false ->
  prepare n request = (set_skip_next n true, request) /\
  forall (b : Batch) (request' : BatchRequest),
    process (fst (prepare n request)) b request' = (Ok b, set_skip_next n false).
Proof.
  intros Hout. unfold prepare. simpl. rewrite Hout. split; [done|].
  intros b request'. reflexivity.
Qed.

Lemma skipped_process_is_noop_witness :
  req_contains BatchRequest_new (bl_scales bl_example) = false /\
  process (fst (prepare bl_example BatchRequest_new)) (mkBatch []) BatchRequest_new
  = (Ok (mkBatch []), set_skip_next bl_example false).
Proof.
  assert (H : req_contains BatchRequest_new (bl_scales bl_example) = false) by reflexivity.
  split; [exact H|].
  exact (proj2 (skipped_process_is_noop bl_example BatchRequest_new H) _ _).
Defined.

(* ================================================================== *)
(** * BalanceLabels.process: the class weights *)

Local Open Scope Q_scope.

Lemma clip_above (x lo hi : Q) : lo <= hi -> hi <= x -> clip x lo hi == hi.
Proof.
  intros Hlh Hx. unfold clip.
  destruct (Q.max_spec x lo) as [[H1 H2]|[H1 H2]];
  destruct (Q.min_spec (Qmax x lo) hi) as [[H3 H4]|[H3 H4]];
  unfold QHasMinMax.max, QHasMinMax.min in *; lra.
Qed.

Lemma clip_below (x lo hi : Q) : lo <= hi -> x <= lo -> clip x lo hi == lo.
Proof.
  intros Hlh Hx. unfold clip.
  destruct (Q.max_spec x lo) as [[H1 H2]|[H1 H2]];
  destruct (Q.min_spec (Qmax x lo) hi) as [[H3 H4]|[H3 H4]];
  unfold QHasMinMax.max, QHasMinMax.min in *; lra.
Qed.

Lemma binarize_one (x : Q) : x == 1 -> binarize x = 1.
Proof.
  intros Hx. unfold binarize.
  assert (H : clip (x + (1#2)) 0 1 == 1) by (apply clip_above; lra).
  rewrite (Qfloor_comp _ _ H). reflexivity.
Qed.

Lemma map_binarize_ones (l : list Q) :
  Forall (fun x => x == 1) l -> map binarize l = repeat 1 (length l).
Proof.
  induction 1 as [|x l Hx _ IH]; [done|]. simpl. rewrite binarize_one by exact Hx.
  rewrite IH. reflexivity.
Qed.

Lemma sumQ_repeat (x : Q) (k : nat) : sumQ (repeat x k) == inject_Z (Z.of_nat k) * x.
Proof.
  induction k as [|k IH]; simpl; [reflexivity|].
  rewrite IH, Nat2Z.inj_succ. unfold Z.succ. rewrite inject_Z_plus. simpl. ring.
Qed.

Lemma mul_elems_repeat (x y : Q) (k : nat) :
  mul_elems (repeat x k) (repeat y k) = repeat (x * y) k.
Proof. induction k as [|k IH]; simpl; [done|]. rewrite IH. done. Qed.

Lemma sumQ_zeros (l : list Q) : Forall (fun x => x == 0) l -> sumQ l == 0.
Proof. induction 1 as [|x l Hx _ IH]; simpl; [reflexivity|]. lra. Qed.

Lemma mul_elems_zeros (a b : list Q) :
  Forall (fun x => x == 0) a -> Forall (fun x => x == 0) (mul_elems a b).
Proof.
  intros H. revert b. induction H as [|x a Hx _ IH]; intros [|y b]; simpl; try constructor.
  - rewrite Hx. lra.
  - apply IH.
Qed.

Lemma vol_lookup_set_eq (vs : list (Key * Volume)) (k : Key) (v : Volume) :
  vol_lookup (vol_set vs k v) k = Some v.
Proof.
  assert (Hk : key_eqb k k = true) by (destruct k; apply String.eqb_refl).
  induction vs as [|[k' v'] vs IH]; simpl.
  - rewrite Hk. done.
  - destruct (key_eqb k' k) eqn:E; simpl; rewrite ?E; [done|exact IH].
Qed.

(** The scales volume written by [compute_scales]. *)
Lemma compute_scales_out (n : BalanceLabels) (b : Batch) (labels : Volume) (es : list Q) :
  batch_get b (bl_labels n) = Ok labels ->
  mask_product b (vol_data labels) (bl_masks n) = Ok es ->
  exists b', compute_scales n b = Ok b' /\
    batch_get b' (bl_scales n) =
      Ok (mkVolume (mkNdArray (nd_shape (vol_data labels))
                     (scale_data (map binarize (nd_data (vol_data labels))) es))
            (mkArraySpec (a_roi (vol_spec labels)) (a_voxel_size (bl_scales_spec n))
               (a_dtype (bl_scales_spec n)) (a_nonspatial (bl_scales_spec n)))).
Proof.
  intros Hl Hm. unfold compute_scales. rewrite Hl. simpl. rewrite Hm. simpl.
  eexists. split; [reflexivity|]. unfold batch_get; simpl. rewrite vol_lookup_set_eq. done.
Qed.

Lemma class_weights_ones (k : nat) : (0 < k)%nat ->
  frac_pos (class_weights (repeat 1 k) (repeat 1 k)) == 19#20 /\
  w_pos (class_weights (repeat 1 k) (repeat 1 k)) == 10#19 /\
  w_neg (class_weights (repeat 1 k) (repeat 1 k)) == 10.
Proof.
  intros Hk. unfold class_weights. rewrite mul_elems_repeat.
  assert (Hmi : sumQ (repeat 1 k) == inject_Z (Z.of_nat k)) by (rewrite sumQ_repeat; ring).
  assert (Hnp : sumQ (repeat (1*1) k) == inject_Z (Z.of_nat k)) by (rewrite sumQ_repeat; ring).
  assert (Hpos : 0 < inject_Z (Z.of_nat k)) by (unfold Qlt; simpl; lia).
  set (mi := sumQ (repeat 1 k)) in *. set (np := sumQ (repeat (1*1) k)) in *.
  assert (Hraw : (if Qlt_le_dec 0 mi then np / mi else 0) == 1).
  { destruct (Qlt_le_dec 0 mi) as [H|H]; [|lra].
    unfold Qdiv. rewrite Hnp, Hmi. apply Qmult_inv_r. lra. }
  set (raw := if Qlt_le_dec 0 mi then np / mi else 0) in *.
  assert (Hfp : clip raw (1#20) (19#20) == 19#20) by (apply clip_above; lra).
  cbn [frac_pos w_pos w_neg]. rewrite Hfp.
  split; [reflexivity|]. split; vm_compute; reflexivity.
Qed.

(** C8 (as stated, refuted): an empty labels array is all ones, yet the
    division guard sets [frac_pos] to 0, clipped to 0.05, not 0.95. *)
Lemma all_ones_empty_labels :
  Forall (fun x => x == 1) (nd_data (vol_data (vol_of [0%nat] []))) /\
  mask_product (mkBatch [(ArrayKey "labels", vol_of [0%nat] [])])
    (vol_data (vol_of [0%nat] [])) (bl_masks bl_nomask) = Ok [] /\
  frac_pos (class_weights (map binarize []) []) == 1#20 /\
  ~ (frac_pos (class_weights (map binarize []) []) == 19#20) /\
  w_pos (class_weights (map binarize []) []) == 10.
Proof.
  split; [constructor|]. split; [reflexivity|].
  split; [vm_compute; reflexivity|]. split; [vm_compute; intro H; discriminate H|].
  vm_compute; reflexivity.
Qed.

(** C8 (amended): for a non-empty labels array of ones and no masks,
    [frac_pos] is clipped to 0.95, [w_pos = 1/(2*0.95) = 10/19],
    [w_neg = 1/(2*0.05) = 10], and the scales written have the labels'
    shape and are [10/19] everywhere. *)
Theorem balance_all_ones (n : BalanceLabels) (b : Batch) (request : BatchRequest)
    (labels : Volume) :
  bl_skip_next n = false -> bl_masks n = [] ->
  batch_get b (bl_labels n) = Ok labels ->
  nd_data (vol_data labels) <> [] ->
  Forall (fun x => x == 1) (nd_data (vol_data labels)) ->
  mask_product b (vol_data labels) (bl_masks n)
    = Ok (repeat 1 (length (nd_data (vol_data labels)))) /\
  frac_pos (class_weights (map binarize (nd_data (vol_data labels)))
              (repeat 1 (length (nd_data (vol_data labels))))) == 19#20 /\
  w_pos (class_weights (map binarize (nd_data (vol_data labels)))
           (repeat 1 (length (nd_data (vol_data labels))))) == 10#19 /\
  w_neg (class_weights (map binarize (nd_data (vol_data labels)))
           (repeat 1 (length (nd_data (vol_data labels))))) == 10 /\
  exists b' scales, process n b request = (Ok b', n) /\
    batch_get b' (bl_scales n) = Ok scales /\
    nd_shape (vol_data scales) = nd_shape (vol_data labels) /\
    length (nd_data (vol_data scales)) = length (nd_data (vol_data labels)) /\
    Forall (fun x => x == 10#19) (nd_data (vol_data scales)).
Proof.
  intros Hskip Hmasks Hl Hne Hones.
  assert (Hm : mask_product b (vol_data labels) (bl_masks n)
               = Ok (repeat 1 (length (nd_data (vol_data labels)))))
    by (unfold mask_product; rewrite Hmasks; reflexivity).
  rewrite (map_binarize_ones _ Hones).
  set (k := length (nd_data (vol_data labels))) in *.
  assert (Hk : (0 < k)%nat) by (subst k; destruct (nd_data (vol_data labels)); [done|simpl; lia]).
  destruct (class_weights_ones k Hk) as (Hfp & Hwp & Hwn).
  split; [exact Hm|]. split; [exact Hfp|]. split; [exact Hwp|]. split; [exact Hwn|].
  destruct (compute_scales_out n b labels _ Hl Hm) as (b' & Hc & Hg).
  exists b'. eexists. split; [unfold process; rewrite Hskip, Hc; reflexivity|].
  split; [exact Hg|]. cbn [vol_data nd_shape nd_data]. split; [reflexivity|].
  rewrite (map_binarize_ones _ Hones). fold k. unfold scale_data.
  rewrite map_repeat, mul_elems_repeat, repeat_length. split; [reflexivity|].
  apply List.Forall_forall. intros x Hx. apply repeat_spec in Hx. subst x.
  unfold class_weight. replace (Qle_bool (1#2) 1) with true by reflexivity. lra.
Qed.

Lemma balance_all_ones_witness :
  w_pos (class_weights (map binarize [1; 1]) (repeat 1 2)) == 10#19.
Proof.
  refine (proj1 (proj2 (proj2 (balance_all_ones bl_nomask
     (mkBatch [(ArrayKey "labels", vol_of [2%nat] [1; 1])]) BatchRequest_new
     (vol_of [2%nat] [1; 1]) eq_refl eq_refl eq_refl _ _)))).
  - discriminate.
  - repeat constructor.
Defined.

(** C9: when the product of the masks is zero everywhere, [masked_in] is
    0, [frac_pos] takes the guard value 0 (no division), clipped to 0.05,
    [w_neg = 1/(2*0.95) = 10/19], and the scales written are zero
    everywhere. *)
Theorem balance_zero_mask (n : BalanceLabels) (b : Batch) (request : BatchRequest)
    (labels : Volume) (es : list Q) :
  bl_skip_next n = false ->
  batch_get b (bl_labels n) = Ok labels ->
  mask_product b (vol_data labels) (bl_masks n) = Ok es ->
  Forall (fun x => x == 0) es ->
  masked_in (class_weights (map binarize (nd_data (vol_data labels))) es) == 0 /\
  frac_pos_raw (class_weights (map binarize (nd_data (vol_data labels))) es) = 0 /\
  frac_pos (class_weights (map binarize (nd_data (vol_data labels))) es) == 1#20 /\
  w_neg (class_weights (map binarize (nd_data (vol_data labels))) es) == 10#19 /\
  exists b' scales, process n b request = (Ok b', n) /\
    batch_get b' (bl_scales n) = Ok scales /\
    Forall (fun x => x == 0) (nd_data (vol_data scales)).
Proof.
  intros Hskip Hl Hm Hz.
  assert (Hmi : sumQ es == 0) by (apply sumQ_zeros; exact Hz).
  unfold class_weights. cbn [masked_in frac_pos_raw frac_pos w_neg].
  destruct (Qlt_le_dec 0 (sumQ es)) as [H|H]; [lra|].
  assert (Hfp : clip 0 (1#20) (19#20) == 1#20) by (apply clip_below; lra).
  split; [exact Hmi|]. split; [reflexivity|]. split; [exact Hfp|].
  split; [rewrite Hfp; vm_compute; reflexivity|].
  destruct (compute_scales_out n b labels es Hl Hm) as (b' & Hc & Hg).
  exists b'. eexists. split; [unfold process; rewrite Hskip, Hc; reflexivity|].
  split; [exact Hg|]. cbn [vol_data nd_data]. unfold scale_data.
  apply mul_elems_zeros. exact Hz.
Qed.

Lemma balance_zero_mask_witness :
  w_neg (class_weights (map binarize [1; 0]) [0; 0]) == 10#19.
Proof.
  refine (proj1 (proj2 (proj2 (proj2 (balance_zero_mask bl_example
     (mkBatch [(ArrayKey "labels", vol_of [2%nat] [1; 0]);
               (ArrayKey "mask", vol_of [2%nat] [0; 0])]) BatchRequest_new
     (vol_of [2%nat] [1; 0]) [1 * 0; 1 * 0] eq_refl eq_refl eq_refl _))))).
  repeat constructor.
Defined.

(* ================================================================== *)
(** * Dicts, locations and fresh objects *)

Local Open Scope nat_scope.

Lemma locs_eq (r : BatchRequest) :
  locs r = map snd (array_specs r) ++ map snd (graph_specs r).
Proof. unfold locs, items. rewrite map_app, !map_map. reflexivity. Qed.

Lemma dict_get_set_eq (d : dict) (k : string) (v : loc) : dict_get (dict_set d k v) k = Some v.
Proof.
  induction d as [|[k' v'] d IH]; simpl.
  - rewrite String.eqb_refl. done.
  - destruct (String.eqb k' k) eqn:E; simpl; rewrite E; [done|exact IH].
Qed.

Lemma dict_get_set_ne (d : dict) (k k' : string) (v : loc) :
  k' <> k -> dict_get (dict_set d k v) k' = dict_get d k'.
Proof.
  intros Hne. induction d as [|[k0 v0] d IH]; simpl.
  - destruct (String.eqb k k') eqn:E; [apply String.eqb_eq in E; congruence|done].
  - destruct (String.eqb k0 k) eqn:E; simpl.
    + apply String.eqb_eq in E. subst k0.
      destruct (String.eqb k k') eqn:E'; [apply String.eqb_eq in E'; congruence|done].
    + destruct (String.eqb k0 k'); [done|exact IH].
Qed.

Lemma dict_set_locs (d : dict) (k : string) (v x : loc) :
  In x (map snd (dict_set d k v)) -> x = v \/ In x (map snd d).
Proof.
  induction d as [|[k0 v0] d IH]; simpl.
  - intros [H|[]]. auto.
  - destruct (String.eqb k0 k); simpl; intros [H|H]; auto.
    destruct (IH H); auto.
Qed.

Lemma dict_set_keys (d : dict) (k : string) (v : loc) (x : string) :
  In x (map fst (dict_set d k v)) -> x = k \/ In x (map fst d).
Proof.
  induction d as [|[k0 v0] d IH]; simpl.
  - intros [H|[]]. auto.
  - destruct (String.eqb k0 k); simpl; intros [H|H]; auto.
    destruct (IH H); auto.
Qed.

Lemma dict_set_nodup (d : dict) (k : string) (v : loc) :
  List.NoDup (map snd d) -> ~ In v (map snd d) -> List.NoDup (map snd (dict_set d k v)).
Proof.
  induction d as [|[k0 v0] d IH]; simpl; intros Hnd Hv.
  - apply List.NoDup_cons; [simpl; tauto|apply List.NoDup_nil].
  - apply NoDup_cons_iff in Hnd as [Hn0 Hnd].
    destruct (String.eqb k0 k); simpl; constructor.
    + intros H. apply Hv. right. exact H.
    + exact Hnd.
    + intros H. destruct (dict_set_locs d k v v0 H) as [->|H']; [apply Hv; left; done|done].
    + apply IH; [exact Hnd|]. intros H. apply Hv. right. exact H.
Qed.

Lemma dict_get_in (d : dict) (k : string) (l : loc) :
  dict_get d k = Some l -> In (k, l) d.
Proof.
  induction d as [|[k0 v0] d IH]; simpl; [done|].
  destruct (String.eqb k0 k) eqn:E.
  - intros [= <-]. apply String.eqb_eq in E. subst. left. done.
  - intros H. right. exact (IH H).
Qed.

Lemma nodup_app_disj (A B : list loc) (x : loc) :
  List.NoDup (A ++ B) -> In x A -> In x B -> False.
Proof.
  induction A as [|a A IH]; simpl; [done|].
  intros Hnd [->|HA] HB; apply NoDup_cons_iff in Hnd as [Hn Hnd].
  - apply Hn. apply in_or_app. right. exact HB.
  - exact (IH Hnd HA HB).
Qed.

Lemma req_get_set_eq (r : BatchRequest) (k : Key) (v : loc) : req_get (req_set_loc r k v) k = Some v.
Proof. destruct k; apply dict_get_set_eq. Qed.

Lemma req_get_set_ne (r : BatchRequest) (k k' : Key) (v : loc) :
  k' <> k -> req_get (req_set_loc r k v) k' = req_get r k'.
Proof.
  intros Hne. destruct k as [n|n], k' as [n'|n']; simpl; try done;
    apply dict_get_set_ne; congruence.
Qed.

Lemma req_get_locs (r : BatchRequest) (k : Key) (l : loc) :
  req_get r k = Some l -> In l (locs r).
Proof.
  rewrite locs_eq. destruct k; simpl; intros H; apply dict_get_in in H;
    apply in_or_app; [left|right]; apply (in_map snd _ _ H).
Qed.

Lemma req_set_locs (r : BatchRequest) (k : Key) (v x : loc) :
  In x (locs (req_set_loc r k v)) -> x = v \/ In x (locs r).
Proof.
  rewrite !locs_eq. destruct k; simpl; intros H; apply in_app_or in H as [H|H].
  - destruct (dict_set_locs _ _ _ _ H); [auto|right; apply in_or_app; auto].
  - right. apply in_or_app. auto.
  - right. apply in_or_app. auto.
  - destruct (dict_set_locs _ _ _ _ H); [auto|right; apply in_or_app; auto].
Qed.

Lemma req_set_nodup (r : BatchRequest) (k : Key) (v : loc) :
  List.NoDup (locs r) -> ~ In v (locs r) -> List.NoDup (locs (req_set_loc r k v)).
Proof.
  rewrite !locs_eq. intros Hnd Hv.
  pose proof (NoDup_app_remove_r _ _ Hnd) as HA.
  pose proof (NoDup_app_remove_l _ _ Hnd) as HB.
  destruct k; simpl; apply List.NoDup_app.
  - apply dict_set_nodup; [exact HA|]. intros H. apply Hv. apply in_or_app. auto.
  - exact HB.
  - intros a Ha Hb. destruct (dict_set_locs _ _ _ _ Ha) as [->|Ha'].
    + apply Hv. apply in_or_app. auto.
    + exact (nodup_app_disj _ _ _ Hnd Ha' Hb).
  - exact HA.
  - apply dict_set_nodup; [exact HB|]. intros H. apply Hv. apply in_or_app. auto.
  - intros a Ha Hb. destruct (dict_set_locs _ _ _ _ Hb) as [->|Hb'].
    + apply Hv. apply in_or_app. auto.
    + exact (nodup_app_disj _ _ _ Hnd Ha Hb').
Qed.

Lemma dict_get_none (d : dict) (k : string) : dict_get d k = None <-> ~ In k (map fst d).
Proof.
  induction d as [|[k0 v0] d IH]; simpl; [tauto|].
  destruct (String.eqb k0 k) eqn:E.
  - apply String.eqb_eq in E. split; [discriminate|]. intros H. exfalso. apply H. left. exact E.
  - apply String.eqb_neq in E. rewrite IH. split.
    + intros H [H'|H']; [exact (E H')|exact (H H')].
    + intros H H'. apply H. right. exact H'.
Qed.

Lemma dict_get_same_keys (d d' : dict) (k : string) :
  map fst d' = map fst d -> dict_get d' k = None -> dict_get d k = None.
Proof. intros Hk. rewrite !dict_get_none, Hk. done. Qed.

Lemma copy_dict_spec (d : dict) (s : State) (res : Result dict) (s' : State) :
  copy_dict d s = (res, s') ->
  Forall (fun l => l < next_loc s) (map snd d) ->
  next_loc s <= next_loc s' /\
  (forall l, l < next_loc s -> heap s' !! l = heap s !! l) /\
  (forall d', res = Ok d' ->
     map fst d' = map fst d /\
     Forall (fun l => next_loc s <= l < next_loc s') (map snd d') /\
     List.NoDup (map snd d') /\
     forall k l', dict_get d' k = Some l' ->
       exists l, dict_get d k = Some l /\ heap s' !! l' = heap s !! l).
Proof.
  revert s res s'. induction d as [|[k l] d IH]; intros s res s' Hrun Hlt.
  - simpl in Hrun. injection Hrun as <- <-. split; [lia|]. split; [done|].
    intros d' [= <-]. simpl. split; [done|]. split; [constructor|].
    split; [constructor|]. done.
  - simpl in Hrun. unfold bindM at 1, deref in Hrun.
    inversion Hlt as [|? ? Hl Hlt']; subst.
    destruct (heap s !! l) as [v|] eqn:Hv.
    2:{ injection Hrun as <- <-. split; [lia|]. split; [done|]. discriminate. }
    unfold bindM, alloc in Hrun.
    set (s1 := mkState (<[next_loc s := v]> (heap s)) (S (next_loc s))) in Hrun.
    destruct (copy_dict d s1) as [r1 s2] eqn:Hc.
    assert (Hlt1 : Forall (fun l => l < next_loc s1) (map snd d)).
    { eapply List.Forall_impl; [|exact Hlt']. intros x Hx. unfold s1; simpl in *. lia. }
    destruct (IH s1 r1 s2 Hc Hlt1) as (Hn & Hfr & Hres). unfold s1 in Hn; simpl in Hn.
    assert (Hfr0 : forall l0, l0 < next_loc s -> heap s2 !! l0 = heap s !! l0).
    { intros l0 Hl0. rewrite Hfr by (unfold s1; simpl; lia). unfold s1; simpl.
      rewrite lookup_insert_ne by lia. done. }
    destruct r1 as [d''|e]; unfold retM in Hrun; injection Hrun as <- <-.
    2:{ split; [lia|]. split; [exact Hfr0|]. discriminate. }
    split; [lia|]. split; [exact Hfr0|].
    intros d' [= <-]. destruct (Hres d'' eq_refl) as (Hk & Hin & Hnd & Hget).
    split; [simpl; rewrite Hk; done|].
    split.
    { simpl. constructor; [lia|]. eapply List.Forall_impl; [|exact Hin]. simpl. lia. }
    split.
    { simpl. constructor; [|exact Hnd]. intros H.
      rewrite List.Forall_forall in Hin. specialize (Hin _ H). simpl in Hin. lia. }
    intros k0 l' Hg. simpl in Hg |- *. destruct (String.eqb k k0) eqn:E.
    + injection Hg as <-. exists l. split; [done|].
      rewrite Hfr by (unfold s1; simpl; lia). unfold s1; simpl. rewrite lookup_insert_eq. done.
    + destruct (Hget k0 l' Hg) as (l0 & Hg0 & Hh). exists l0. split; [exact Hg0|].
      rewrite Hh. unfold s1; simpl. rewrite lookup_insert_ne; [done|].
      apply dict_get_in in Hg0. apply (in_map snd) in Hg0.
      rewrite List.Forall_forall in Hlt'. specialize (Hlt' _ Hg0). simpl in Hlt'. lia.
Qed.

Lemma copy_spec (r : BatchRequest) (s : State) (res : Result BatchRequest) (s' : State) :
  copy r s = (res, s') ->
  Forall (fun l => l < next_loc s) (locs r) ->
  next_loc s <= next_loc s' /\
  (forall l, l < next_loc s -> heap s' !! l = heap s !! l) /\
  (forall m, res = Ok m ->
     Forall (fun l => next_loc s <= l < next_loc s') (locs m) /\
     List.NoDup (locs m) /\
     (forall k, req_get m k = None <-> req_get r k = None) /\
     forall k, spec_of s' m k = spec_of s r k).
Proof.
  intros Hrun Hlt. rewrite locs_eq, List.Forall_app in Hlt. destruct Hlt as [HltA HltG].
  unfold copy, bindM in Hrun.
  destruct (copy_dict (array_specs r) s) as [ra s1] eqn:Ha.
  destruct (copy_dict_spec _ _ _ _ Ha HltA) as (Hn1 & Hfr1 & Hres1).
  destruct ra as [a|e]; [|injection Hrun as <- <-; split; [lia|]; split; [exact Hfr1|discriminate]].
  destruct (copy_dict (graph_specs r) s1) as [rg s2] eqn:Hg.
  assert (HltG1 : Forall (fun l => l < next_loc s1) (map snd (graph_specs r))).
  { eapply List.Forall_impl; [|exact HltG]. simpl. lia. }
  destruct (copy_dict_spec _ _ _ _ Hg HltG1) as (Hn2 & Hfr2 & Hres2).
  assert (Hfr : forall l, l < next_loc s -> heap s2 !! l = heap s !! l).
  { intros l Hl. rewrite Hfr2 by lia. apply Hfr1. exact Hl. }
  destruct rg as [g|e]; [|injection Hrun as <- <-; split; [lia|]; split; [exact Hfr|discriminate]].
  unfold retM in Hrun. injection Hrun as <- <-.
  split; [lia|]. split; [exact Hfr|]. intros m [= <-].
  destruct (Hres1 a eq_refl) as (HkA & HinA & HndA & HgetA).
  destruct (Hres2 g eq_refl) as (HkG & HinG & HndG & HgetG).
  rewrite locs_eq. simpl. split; [|split; [|split]].
  - apply List.Forall_app. split.
    + eapply List.Forall_impl; [|exact HinA]. simpl. lia.
    + eapply List.Forall_impl; [|exact HinG]. simpl. lia.
  - apply List.NoDup_app; [exact HndA|exact HndG|].
    intros x Hx Hx'. rewrite List.Forall_forall in HinA, HinG.
    specialize (HinA _ Hx). specialize (HinG _ Hx'). simpl in *. lia.
  - intros [n|n]; simpl; rewrite !dict_get_none; [rewrite HkA|rewrite HkG]; tauto.
  - intros [n|n]; unfold spec_of; simpl.
    + destruct (dict_get a n) as [l'|] eqn:E.
      * destruct (HgetA n l' E) as (l & Hl & Hh). rewrite Hl.
        rewrite Hfr2 by (rewrite List.Forall_forall in HinA;
          specialize (HinA l' (in_map snd _ _ (dict_get_in _ _ _ E))); simpl in HinA; lia).
        exact Hh.
      * rewrite (dict_get_same_keys _ _ _ HkA E). done.
    + destruct (dict_get g n) as [l'|] eqn:E.
      * destruct (HgetG n l' E) as (l & Hl & Hh). rewrite Hl, Hh.
        apply Hfr1. rewrite List.Forall_forall in HltG.
        exact (HltG l (in_map snd _ _ (dict_get_in _ _ _ Hl))).
      * rewrite (dict_get_same_keys _ _ _ HkG E). done.
Qed.

Lemma dict_get_inj (d : dict) (k k' : string) (l : loc) :
  List.NoDup (map snd d) -> dict_get d k = Some l -> dict_get d k' = Some l -> k = k'.
Proof.
  induction d as [|[k0 v0] d IH]; simpl; [discriminate|].
  intros Hnd. apply NoDup_cons_iff in Hnd as [Hn Hnd].
  destruct (String.eqb k0 k) eqn:E, (String.eqb k0 k') eqn:E'.
  - apply String.eqb_eq in E, E'. congruence.
  - intros [= <-] H. exfalso. apply Hn. apply (in_map snd _ _ (dict_get_in _ _ _ H)).
  - intros H [= <-]. exfalso. apply Hn. apply (in_map snd _ _ (dict_get_in _ _ _ H)).
  - exact (IH Hnd).
Qed.

Lemma req_get_inj (r : BatchRequest) (k k' : Key) (l : loc) :
  List.NoDup (locs r) -> req_get r k = Some l -> req_get r k' = Some l -> k = k'.
Proof.
  rewrite locs_eq. intros Hnd.
  pose proof (NoDup_app_remove_r _ _ Hnd) as HA.
  pose proof (NoDup_app_remove_l _ _ Hnd) as HB.
  destruct k as [n|n], k' as [n'|n']; simpl; intros H H'.
  - f_equal. exact (dict_get_inj _ _ _ _ HA H H').
  - exfalso. apply (nodup_app_disj _ _ l Hnd).
    + exact (in_map snd _ _ (dict_get_in _ _ _ H)).
    + exact (in_map snd _ _ (dict_get_in _ _ _ H')).
  - exfalso. apply (nodup_app_disj _ _ l Hnd).
    + exact (in_map snd _ _ (dict_get_in _ _ _ H')).
    + exact (in_map snd _ _ (dict_get_in _ _ _ H)).
  - f_equal. exact (dict_get_inj _ _ _ _ HB H H').
Qed.

Lemma in_locs_range (n0 : loc) (s : State) (r : BatchRequest) (l : loc) :
  Forall (fun l => n0 <= l < next_loc s) (locs r) -> In l (locs r) -> n0 <= l < next_loc s.
Proof. intros H Hl. rewrite List.Forall_forall in H. exact (H l Hl). Qed.

(** [self[key] = spec] on a merged request: the invariant is kept and the
    new object holds [inc]. *)
Lemma setitem_fresh (n0 : loc) (s0 s : State) (merged : BatchRequest) (k : Key) (inc : Spec)
    (res : Result BatchRequest) (s' : State) :
  fresh_inv n0 s0 s merged ->
  setitem merged k inc s = (res, s') ->
  (forall l0, l0 < n0 -> heap s' !! l0 = heap s0 !! l0) /\ n0 <= next_loc s' /\
  forall merged', res = Ok merged' ->
    fresh_inv n0 s0 s' merged' /\
    (forall k', k' <> k -> spec_of s' merged' k' = spec_of s merged k') /\
    spec_of s' merged' k = Some inc.
Proof.
  intros (Hn & Hfr & Hin & Hnd) Hrun.
  unfold setitem, bindM, alloc, retM in Hrun. injection Hrun as <- <-. simpl.
  split.
  { intros l0 Hl0. rewrite lookup_insert_ne by lia. apply Hfr. exact Hl0. }
  split; [lia|]. intros merged' [= <-].
  split; [|split].
  - unfold fresh_inv; simpl. split; [lia|]. split.
    { intros l0 Hl0. simpl. rewrite lookup_insert_ne by lia. apply Hfr. exact Hl0. }
    split.
    + apply List.Forall_forall. intros x Hx. simpl.
      destruct (req_set_locs _ _ _ _ Hx) as [->|Hx']; [lia|].
      pose proof (in_locs_range _ _ _ _ Hin Hx'). lia.
    + apply req_set_nodup; [exact Hnd|]. intros H.
      pose proof (in_locs_range _ _ _ _ Hin H). lia.
  - intros k' Hne. unfold spec_of. rewrite req_get_set_ne by exact Hne.
    destruct (req_get merged k') as [l'|] eqn:E; [|done]. simpl.
    pose proof (in_locs_range _ _ _ _ Hin (req_get_locs _ _ _ E)).
    rewrite lookup_insert_ne by lia. done.
  - unfold spec_of. rewrite req_get_set_eq. simpl. rewrite lookup_insert_eq. done.
Qed.

(** One iteration of [merge]: only objects of the merged request change,
    only the entry of [k] changes, and it becomes [merge_value]. *)
Lemma merge_step_spec (n0 : loc) (s0 s : State) (merged : BatchRequest) (k : Key) (l : loc)
    (res : Result BatchRequest) (s' : State) :
  fresh_inv n0 s0 s merged -> l < n0 ->
  merge_step merged (k, l) s = (res, s') ->
  (forall l0, l0 < n0 -> heap s' !! l0 = heap s0 !! l0) /\ n0 <= next_loc s' /\
  forall merged', res = Ok merged' ->
    fresh_inv n0 s0 s' merged' /\
    (forall k', k' <> k -> spec_of s' merged' k' = spec_of s merged k') /\
    exists inc v, heap s0 !! l = Some inc /\ merge_value (spec_of s merged k) inc = Ok v /\
                  spec_of s' merged' k = Some v.
Proof.
  intros Hinv Hl Hrun. pose proof Hinv as (Hn & Hfr & Hin & Hnd).
  unfold merge_step, bindM at 1, deref at 1 in Hrun.
  cbn beta iota in Hrun. rewrite (Hfr l Hl) in Hrun.
  destruct (heap s0 !! l) as [inc|] eqn:Hinc.
  2:{ injection Hrun as <- <-. split; [exact Hfr|]. split; [exact Hn|]. discriminate. }
  destruct (req_get merged k) as [ml|] eqn:Hk.
  - (* the key is already in the merged request *)
    pose proof (in_locs_range _ _ _ _ Hin (req_get_locs _ _ _ Hk)) as Hml.
    unfold bindM at 1, deref at 1 in Hrun.
    destruct (heap s !! ml) as [mspec|] eqn:Hm.
    2:{ injection Hrun as <- <-. split; [exact Hfr|]. split; [exact Hn|]. discriminate. }
    destruct (is_array_spec inc && spec_nonspatial mspec) eqn:Hc.
    + destruct (setitem_fresh _ _ _ _ _ _ _ _ Hinv Hrun) as (Hfr' & Hn' & Hres).
      split; [exact Hfr'|]. split; [exact Hn'|]. intros merged' Hm'.
      destruct (Hres merged' Hm') as (Hinv' & Hoth & Hself).
      split; [exact Hinv'|]. split; [exact Hoth|].
      exists inc, inc. split; [done|]. split; [|exact Hself].
      unfold spec_of. rewrite Hk, Hm. simpl. rewrite Hc. done.
    + destruct (spec_roi mspec) as [mr|] eqn:Hr.
      2:{ unfold raise in Hrun. injection Hrun as <- <-.
          split; [exact Hfr|]. split; [exact Hn|]. discriminate. }
      unfold bindM, liftR in Hrun.
      destruct (union_opt (Some mr) (spec_roi inc)) as [u|e] eqn:Hu.
      2:{ injection Hrun as <- <-. split; [exact Hfr|]. split; [exact Hn|]. discriminate. }
      unfold write, retM in Hrun. injection Hrun as <- <-. simpl.
      split.
      { intros l0 Hl0. rewrite lookup_insert_ne by lia. apply Hfr. exact Hl0. }
      split; [exact Hn|]. intros merged' [= <-].
      split; [|split].
      * unfold fresh_inv; simpl. split; [exact Hn|]. split; [|split; [exact Hin|exact Hnd]].
        intros l0 Hl0. rewrite lookup_insert_ne by lia. apply Hfr. exact Hl0.
      * intros k' Hne. unfold spec_of. simpl.
        destruct (req_get merged k') as [l'|] eqn:E; [|done].
        rewrite lookup_insert_ne; [done|].
        intros ->. apply Hne. exact (req_get_inj _ _ _ _ Hnd E Hk).
      * exists inc, (spec_set_roi mspec u). split; [done|].
        unfold spec_of. rewrite Hk. simpl. rewrite lookup_insert_eq.
        split; [|done]. rewrite Hm. simpl. rewrite Hc, Hr. simpl in Hu |- *. rewrite Hu. done.
  - (* the key is new *)
    destruct (setitem_fresh _ _ _ _ _ _ _ _ Hinv Hrun) as (Hfr' & Hn' & Hres).
    split; [exact Hfr'|]. split; [exact Hn'|]. intros merged' Hm'.
    destruct (Hres merged' Hm') as (Hinv' & Hoth & Hself).
    split; [exact Hinv'|]. split; [exact Hoth|].
    exists inc, inc. split; [done|]. split; [|exact Hself].
    unfold spec_of. rewrite Hk. done.
Qed.

Lemma merge_fold_spec (n0 : loc) (s0 : State) (its : list (Key * loc)) :
  forall (s : State) (merged : BatchRequest) (res : Result BatchRequest) (s' : State),
  fresh_inv n0 s0 s merged ->
  Forall (fun kl => snd kl < n0) its ->
  List.NoDup (map fst its) ->
  foldM merge_step merged its s = (res, s') ->
  (forall l0, l0 < n0 -> heap s' !! l0 = heap s0 !! l0) /\
  forall m, res = Ok m ->
    fresh_inv n0 s0 s' m /\
    (forall k, ~ In k (map fst its) -> spec_of s' m k = spec_of s merged k) /\
    (forall k l, In (k, l) its ->
       exists inc v, heap s0 !! l = Some inc /\
         merge_value (spec_of s merged k) inc = Ok v /\ spec_of s' m k = Some v).
Proof.
  induction its as [|[k l] its IH]; intros s merged res s' Hinv Hlt Hnd Hrun.
  - simpl in Hrun. unfold retM in Hrun. injection Hrun as <- <-.
    split; [apply Hinv|]. intros m [= <-]. split; [exact Hinv|]. split; [done|]. intros k l [].
  - cbn [foldM] in Hrun. unfold bindM at 1 in Hrun.
    inversion Hlt as [|? ? Hl Hlt']; subst. simpl in Hl.
    simpl in Hnd. apply NoDup_cons_iff in Hnd as [Hk Hnd].
    destruct (merge_step merged (k, l) s) as [r1 s1] eqn:Hs.
    destruct (merge_step_spec _ _ _ _ _ _ _ _ Hinv Hl Hs) as (Hfr1 & _ & Hres1).
    destruct r1 as [m1|e]; [|injection Hrun as <- <-; split; [exact Hfr1|discriminate]].
    destruct (Hres1 m1 eq_refl) as (Hinv1 & Hoth1 & (inc & v & Hinc & Hv & Hget)).
    destruct (IH s1 m1 res s' Hinv1 Hlt' Hnd Hrun) as (Hfr & Hres).
    split; [exact Hfr|]. intros m Hm. destruct (Hres m Hm) as (Hinv' & Hoth & Hnew).
    split; [exact Hinv'|]. split.
    + intros k' Hk'. simpl in Hk'. rewrite Hoth by tauto. apply Hoth1. intros ->. tauto.
    + intros k' l' [[= <- <-]|Hin].
      * exists inc, v. split; [exact Hinc|]. split; [exact Hv|]. rewrite Hoth by exact Hk. exact Hget.
      * destruct (Hnew k' l' Hin) as (inc' & v' & Hinc' & Hv' & Hget').
        exists inc', v'. split; [exact Hinc'|]. split; [|exact Hget'].
        rewrite <- Hoth1; [exact Hv'|]. intros ->. apply Hk. exact (in_map fst _ _ Hin).
Qed.

Lemma nodup_map_inj {A B : Type} (f : A -> B) (l : list A) :
  (forall x y, f x = f y -> x = y) -> List.NoDup l -> List.NoDup (map f l).
Proof.
  intros Hf. induction 1 as [|x l Hx _ IH]; simpl; constructor; [|exact IH].
  intros H. apply in_map_iff in H as (y & Hy & Hin). apply Hf in Hy. subst. tauto.
Qed.

Lemma items_keys_nodup (r : BatchRequest) :
  List.NoDup (map fst (array_specs r)) -> List.NoDup (map fst (graph_specs r)) ->
  List.NoDup (map fst (items r)).
Proof.
  intros HA HG. unfold items. rewrite map_app, !map_map. simpl.
  rewrite <- (map_map fst ArrayKey), <- (map_map fst GraphKey).
  apply List.NoDup_app.
  - apply nodup_map_inj; [congruence|exact HA].
  - apply nodup_map_inj; [congruence|exact HG].
  - intros a Ha Hb. apply in_map_iff in Ha as (x & <- & _). apply in_map_iff in Hb as (y & Hy & _).
    discriminate.
Qed.

Lemma req_get_items (r : BatchRequest) (k : Key) (l : loc) :
  req_get r k = Some l -> In (k, l) (items r).
Proof.
  unfold items. destruct k; simpl; intros H; apply dict_get_in in H; apply in_or_app.
  - left. exact (in_map (fun kv => (ArrayKey (fst kv), snd kv)) _ _ H).
  - right. exact (in_map (fun kv => (GraphKey (fst kv), snd kv)) _ _ H).
Qed.

Lemma spec_of_frame (s s' : State) (r : BatchRequest) (k : Key) :
  (forall l, In l (locs r) -> heap s' !! l = heap s !! l) -> spec_of s' r k = spec_of s r k.
Proof.
  intros H. unfold spec_of. destruct (req_get r k) as [l|] eqn:E; [|done].
  apply H. exact (req_get_locs _ _ _ E).
Qed.

Lemma spec_of_type (s : State) (r : BatchRequest) (k : Key) (v : Spec) :
  req_wf s r -> spec_of s r k = Some v ->
  is_array_spec v = match k with ArrayKey _ => true | GraphKey _ => false end.
Proof.
  intros (_ & _ & _ & HA & HG). unfold spec_of.
  destruct k as [n|n]; simpl; destruct (dict_get _ n) as [l|] eqn:E; try discriminate;
    intros Hv; apply dict_get_in in E.
  - rewrite List.Forall_forall in HA. specialize (HA _ E). unfold in_array_dict in HA.
    simpl in HA. rewrite Hv in HA. destruct v; done.
  - rewrite List.Forall_forall in HG. specialize (HG _ E). unfold in_graph_dict in HG.
    simpl in HG. rewrite Hv in HG. destruct v; done.
Qed.

(** [merge(self, request)]: the inputs' objects are untouched, the result
    only refers to fresh objects, and each key of [request] ends up with
    [merge_value] of its spec in [self] and in [request]. *)
Lemma merge_spec (r1 r2 : BatchRequest) (s : State) (res : Result BatchRequest) (s' : State) :
  Forall (fun l => l < next_loc s) (locs r1) -> req_wf s r2 ->
  merge r1 r2 s = (res, s') ->
  (forall l, l < next_loc s -> heap s' !! l = heap s !! l) /\
  forall m, res = Ok m ->
    Forall (fun l => next_loc s <= l) (locs m) /\
    (forall k, ~ In k (map fst (items r2)) -> spec_of s' m k = spec_of s r1 k) /\
    (forall k l, In (k, l) (items r2) ->
       exists inc v, heap s !! l = Some inc /\
         merge_value (spec_of s r1 k) inc = Ok v /\ spec_of s' m k = Some v).
Proof.
  intros Hlt1 (Hlt2 & HndA & HndG & _ & _) Hrun.
  unfold merge, bindM in Hrun.
  destruct (copy r1 s) as [rc s1] eqn:Hc.
  destruct (copy_spec _ _ _ _ Hc Hlt1) as (Hn1 & Hfr1 & Hres1).
  destruct rc as [m0|e]; [|injection Hrun as <- <-; split; [exact Hfr1|discriminate]].
  destruct (Hres1 m0 eq_refl) as (Hin0 & Hnd0 & _ & Hspec0).
  assert (Hinv : fresh_inv (next_loc s) s s1 m0) by (split; [exact Hn1|split; [exact Hfr1|split; [exact Hin0|exact Hnd0]]]).
  assert (Hlt : Forall (fun kl => snd kl < next_loc s) (items r2)).
  { unfold locs in Hlt2. apply List.Forall_forall. intros kl Hkl.
    rewrite List.Forall_forall in Hlt2. exact (Hlt2 _ (in_map snd _ _ Hkl)). }
  destruct (merge_fold_spec _ _ _ _ _ _ _ Hinv Hlt (items_keys_nodup _ HndA HndG) Hrun)
    as (Hfr & Hres).
  split; [exact Hfr|]. intros m Hm. destruct (Hres m Hm) as ((_ & _ & Hin & _) & Hoth & Hnew).
  split; [|split].
  - eapply List.Forall_impl; [|exact Hin]. simpl. lia.
  - intros k Hk. rewrite Hoth by exact Hk. apply Hspec0.
  - intros k l Hkl. rewrite <- Hspec0. exact (Hnew k l Hkl).
Qed.

Lemma spec_of_req_get (s : State) (r : BatchRequest) (k : Key) (v : Spec) :
  spec_of s r k = Some v -> exists l, req_get r k = Some l /\ heap s !! l = Some v.
Proof. unfold spec_of. destruct (req_get r k) as [l|]; [eauto|discriminate]. Qed.

Lemma spec_of_write_other (h : gmap loc Spec) (n n' : loc) (r : BatchRequest) (l : loc)
    (v : Spec) (k : Key) :
  ~ In l (locs r) -> spec_of (mkState (<[l := v]> h) n) r k = spec_of (mkState h n') r k.
Proof.
  intros Hl. apply spec_of_frame. intros l' Hl'. simpl.
  apply lookup_insert_ne. intros ->. exact (Hl Hl').
Qed.

Lemma merge_result (r1 r2 : BatchRequest) (s : State) (m : BatchRequest) (s' : State)
    (k : Key) (v2 : Spec) :
  req_wf s r1 -> req_wf s r2 -> merge r1 r2 s = (Ok m, s') -> spec_of s r2 k = Some v2 ->
  exists v, merge_value (spec_of s r1 k) v2 = Ok v /\ spec_of s' m k = Some v.
Proof.
  intros Hw1 Hw2 Hrun H2.
  destruct (merge_spec _ _ _ _ _ (proj1 Hw1) Hw2 Hrun) as (_ & Hres).
  destruct (Hres m eq_refl) as (_ & _ & Hnew).
  destruct (spec_of_req_get _ _ _ _ H2) as (l2 & Hg2 & Hh2).
  destruct (Hnew k l2 (req_get_items _ _ _ Hg2)) as (inc & v & Hinc & Hv & Hget).
  rewrite Hh2 in Hinc. injection Hinc as <-. eauto.
Qed.

(* ================================================================== *)
(** * BatchRequest.merge *)

(** C2: for a key in both requests whose spec in [r1] is spatial, the
    merged spec is [r1]'s spec (voxel size, dtype and every other field)
    with its ROI replaced by the union of the two ROIs. *)
Theorem merge_spatial_union (r1 r2 : BatchRequest) (s : State) (m : BatchRequest) (s' : State)
    (k : Key) (v1 v2 : Spec) :
  req_wf s r1 -> req_wf s r2 -> merge r1 r2 s = (Ok m, s') ->
  spec_of s r1 k = Some v1 -> spec_nonspatial v1 = false -> spec_of s r2 k = Some v2 ->
  exists u, union_opt (spec_roi v1) (spec_roi v2) = Ok u /\
            spec_of s' m k = Some (spec_set_roi v1 u).
Proof.
  intros Hw1 Hw2 Hrun H1 Hns H2.
  destruct (merge_result _ _ _ _ _ _ _ Hw1 Hw2 Hrun H2) as (v & Hv & Hget).
  rewrite H1 in Hv. unfold merge_value in Hv. rewrite Hns, andb_false_r in Hv.
  destruct (spec_roi v1) as [mr|] eqn:Hr; [|discriminate].
  destruct (union_opt (Some mr) (spec_roi v2)) as [u|e] eqn:Hu; [|discriminate].
  simpl in Hv. injection Hv as <-.
  exists u. split; [reflexivity|exact Hget].
Qed.

(** C3: for a key in both requests whose spec in [r1] is nonspatial, the
    merged spec is exactly [r2]'s spec. *)
Theorem merge_nonspatial_overwrite (r1 r2 : BatchRequest) (s : State) (m : BatchRequest)
    (s' : State) (k : Key) (v1 v2 : Spec) :
  req_wf s r1 -> req_wf s r2 -> merge r1 r2 s = (Ok m, s') ->
  spec_of s r1 k = Some v1 -> spec_nonspatial v1 = true -> spec_of s r2 k = Some v2 ->
  spec_of s' m k = Some v2.
Proof.
  intros Hw1 Hw2 Hrun H1 Hns H2.
  destruct (merge_result _ _ _ _ _ _ _ Hw1 Hw2 Hrun H2) as (v & Hv & Hget).
  assert (Ha2 : is_array_spec v2 = true).
  { rewrite (spec_of_type _ _ _ _ Hw2 H2). pose proof (spec_of_type _ _ _ _ Hw1 H1) as Ht.
    destruct v1; [|discriminate]. destruct k; done. }
  rewrite H1 in Hv. unfold merge_value in Hv. rewrite Ha2, Hns in Hv. simpl in Hv.
  injection Hv as <-. exact Hget.
Qed.

(** C4: [merge] changes neither input, the merged request refers only to
    objects of its own (so writes to them are not seen through [r1] or
    [r2], and writes through [r1] or [r2] are not seen through it), and a
    key absent from [r1] gets a copy of [r2]'s spec. *)
Theorem merge_isolated (r1 r2 : BatchRequest) (s : State) (res : Result BatchRequest)
    (s' : State) :
  req_wf s r1 -> req_wf s r2 -> merge r1 r2 s = (res, s') ->
  (forall k, spec_of s' r1 k = spec_of s r1 k /\ spec_of s' r2 k = spec_of s r2 k) /\
  forall m, res = Ok m ->
    (forall l, In l (locs m) -> ~ In l (locs r1) /\ ~ In l (locs r2)) /\
    (forall k v2, req_contains r1 k = false -> spec_of s r2 k = Some v2 ->
       spec_of s' m k = Some v2) /\
    (forall l v k, In l (locs m) ->
       spec_of (mkState (<[l := v]> (heap s')) (next_loc s')) r1 k = spec_of s' r1 k /\
       spec_of (mkState (<[l := v]> (heap s')) (next_loc s')) r2 k = spec_of s' r2 k) /\
    (forall l v k, In l (locs r1) \/ In l (locs r2) ->
       spec_of (mkState (<[l := v]> (heap s')) (next_loc s')) m k = spec_of s' m k).
Proof.
  intros Hw1 Hw2 Hrun. pose proof (proj1 Hw1) as Hl1. pose proof (proj1 Hw2) as Hl2.
  rewrite List.Forall_forall in Hl1, Hl2.
  destruct (merge_spec _ _ _ _ _ (proj1 Hw1) Hw2 Hrun) as (Hfr & Hres).
  split.
  { intros k. split; apply spec_of_frame; intros l Hl; apply Hfr; auto. }
  intros m Hm. destruct (Hres m Hm) as (Hin & _ & _). subst res.
  rewrite List.Forall_forall in Hin.
  assert (Hdisj : forall l, In l (locs m) -> ~ In l (locs r1) /\ ~ In l (locs r2)).
  { intros l Hl. specialize (Hin l Hl). split; intros H; [specialize (Hl1 l H)|specialize (Hl2 l H)];
      simpl in *; lia. }
  split; [exact Hdisj|]. split; [|split].
  - intros k v2 Hk H2.
    destruct (merge_result _ _ _ _ _ _ _ Hw1 Hw2 Hrun H2) as (v & Hv & Hget).
    unfold req_contains in Hk. unfold spec_of in Hv at 1.
    destruct (req_get r1 k); [discriminate|]. injection Hv as <-. exact Hget.
  - intros l v k Hl. destruct (Hdisj l Hl) as [H1 H2].
    split; (rewrite spec_of_write_other with (n' := next_loc s'); [|assumption]); destruct s'; done.
  - intros l v k Hl. rewrite spec_of_write_other with (n' := next_loc s'); [destruct s'; done|].
    intros H. destruct (Hdisj l H). tauto.
Qed.

Lemma ex_r1_wf : req_wf ex_state ex_r1.
Proof. repeat split; vm_compute; repeat constructor; simpl; intuition discriminate. Qed.

Lemma ex_r2_wf : req_wf ex_state ex_r2.
Proof. repeat split; vm_compute; repeat constructor; simpl; intuition discriminate. Qed.

Lemma merge_spatial_union_witness :
  exists m s', merge ex_r1 ex_r2 ex_state = (Ok m, s') /\
    exists u, union_opt (spec_roi ex_a1) (spec_roi ex_a2) = Ok u /\
              spec_of s' m (ArrayKey "a") = Some (spec_set_roi ex_a1 u).
Proof.
  destruct (merge ex_r1 ex_r2 ex_state) as [res s'] eqn:Hrun.
  pose proof Hrun as Hc. vm_compute in Hc. injection Hc as <- _.
  eexists _, s'. split; [reflexivity|].
  apply (merge_spatial_union ex_r1 ex_r2 ex_state _ s' (ArrayKey "a") ex_a1 ex_a2
           ex_r1_wf ex_r2_wf Hrun); vm_compute; reflexivity.
Defined.

Lemma merge_nonspatial_overwrite_witness :
  exists m s', merge ex_r1 ex_r2 ex_state = (Ok m, s') /\ spec_of s' m (ArrayKey "n") = Some ex_n2.
Proof.
  destruct (merge ex_r1 ex_r2 ex_state) as [res s'] eqn:Hrun.
  pose proof Hrun as Hc. vm_compute in Hc. injection Hc as <- _.
  eexists _, s'. split; [reflexivity|].
  apply (merge_nonspatial_overwrite ex_r1 ex_r2 ex_state _ s' (ArrayKey "n") ex_n1 ex_n2
           ex_r1_wf ex_r2_wf Hrun); vm_compute; reflexivity.
Defined.

Lemma merge_isolated_witness :
  exists res s', merge ex_r1 ex_r2 ex_state = (res, s') /\
    spec_of s' ex_r1 (ArrayKey "a") = Some ex_a1 /\
    forall m, res = Ok m -> spec_of s' m (ArrayKey "b") = Some ex_b2.
Proof.
  destruct (merge ex_r1 ex_r2 ex_state) as [res s'] eqn:Hrun.
  destruct (merge_isolated ex_r1 ex_r2 ex_state res s' ex_r1_wf ex_r2_wf Hrun) as [Hin Hout].
  exists res, s'. split; [reflexivity|]. split.
  - rewrite (proj1 (Hin (ArrayKey "a"))). vm_compute. reflexivity.
  - intros m Hm. destruct (Hout m Hm) as (_ & Hb & _).
    apply Hb; vm_compute; reflexivity.
Defined.

(* ================================================================== *)
(** * Centering after [add] *)

Local Open Scope Z_scope.

(** [coord_zip] on coordinates of equal length. *)
Lemma coord_zip_ok (f : Z -> Z -> Z) (a b : Coordinate) :
  length a = length b -> coord_zip f a b = Ok (zipw f a b).
Proof.
  revert b. induction a as [|x a IH]; intros [|y b] H; simpl in *; try done.
  injection H as H. rewrite (IH b H). reflexivity.
Qed.

Lemma zipw_length (f : Z -> Z -> Z) (a b : list Z) :
  length (zipw f a b) = Nat.min (length a) (length b).
Proof. revert b. induction a as [|x a IH]; intros [|y b]; simpl; try done. rewrite IH. done. Qed.

Lemma quot2_facts (a : Z) : 0 <= a -> a = 2 * Z.quot a 2 + Z.rem a 2 /\ 0 <= Z.rem a 2 < 2.
Proof. intros H. split; [apply Z.quot_rem'|]. apply Z.rem_bound_pos; lia. Qed.

(** One coordinate of the union of two ROIs centered at [c]. *)
Lemma union_comp (c a b : Z) : 0 <= a -> 0 <= b ->
  Z.min (c - Z.quot a 2) (c - Z.quot b 2) = c - Z.quot (Z.max a b) 2 /\
  Z.max (c - Z.quot a 2 + a) (c - Z.quot b 2 + b) - (c - Z.quot (Z.max a b) 2) = Z.max a b.
Proof.
  intros Ha Hb. pose proof (quot2_facts a Ha). pose proof (quot2_facts b Hb).
  destruct (Z.le_ge_cases a b); [rewrite (Z.max_r a b)|rewrite (Z.max_l a b)]; try lia.
Qed.

Lemma centered_union_lists (c s1 s2 : list Z) :
  length s1 = length c -> length s2 = length c ->
  Forall (fun z => 0 <= z) s1 -> Forall (fun z => 0 <= z) s2 ->
  zipw Z.min (roi_offset (centered_roi c s1)) (roi_offset (centered_roi c s2))
    = roi_offset (centered_roi c (zipw Z.max s1 s2)) /\
  zipw Z.sub (zipw Z.max (zipw Z.add (roi_offset (centered_roi c s1)) s1)
                         (zipw Z.add (roi_offset (centered_roi c s2)) s2))
             (roi_offset (centered_roi c (zipw Z.max s1 s2)))
    = zipw Z.max s1 s2.
Proof.
  unfold centered_roi; simpl. revert s1 s2.
  induction c as [|ci c IH]; intros [|a s1] [|b s2] H1 H2 F1 F2; simpl in *; try done; try lia.
  inversion F1 as [|? ? Ha F1']; subst. inversion F2 as [|? ? Hb F2']; subst.
  destruct (IH s1 s2 ltac:(lia) ltac:(lia) F1' F2') as [E1 E2].
  destruct (union_comp ci a b Ha Hb) as [E3 E4].
  rewrite E1, E2, E3, E4. done.
Qed.

Lemma union_eq (d : nat) (x y : Roi) : roi_ok d x -> roi_ok d y ->
  union x y = Ok (mkRoi (zipw Z.min (roi_offset x) (roi_offset y))
     (zipw Z.sub (zipw Z.max (zipw Z.add (roi_offset x) (roi_shape x))
                             (zipw Z.add (roi_offset y) (roi_shape y)))
                 (zipw Z.min (roi_offset x) (roi_offset y)))).
Proof.
  intros (Hox & Hsx & _) (Hoy & Hsy & _). unfold union, get_begin, get_end.
  rewrite (coord_zip_ok Z.min) by lia. simpl.
  rewrite (coord_zip_ok Z.add (roi_offset x)) by lia. simpl.
  rewrite (coord_zip_ok Z.add (roi_offset y)) by lia. simpl.
  rewrite (coord_zip_ok Z.max) by (rewrite !zipw_length; lia). simpl.
  rewrite (coord_zip_ok Z.sub) by (rewrite !zipw_length; lia). simpl.
  reflexivity.
Qed.

Lemma union_shape_nonneg (o1 o2 s1 s2 : list Z) :
  Forall (fun z => 0 <= z) s1 -> Forall (fun z => 0 <= z) s2 ->
  Forall (fun z => 0 <= z)
    (zipw Z.sub (zipw Z.max (zipw Z.add o1 s1) (zipw Z.add o2 s2)) (zipw Z.min o1 o2)).
Proof.
  revert o2 s1 s2. induction o1 as [|a o1 IH]; intros [|b o2] [|x s1] [|y s2] F1 F2; simpl;
    try constructor.
  - inversion F1; inversion F2; subst. lia.
  - inversion F1; inversion F2; subst. apply IH; assumption.
Qed.

Lemma union_ok (d : nat) (x y : Roi) : roi_ok d x -> roi_ok d y ->
  exists z, union x y = Ok z /\ roi_ok d z.
Proof.
  intros Hx Hy. rewrite (union_eq d x y Hx Hy). eexists. split; [reflexivity|].
  destruct Hx as (Hox & Hsx & Fx), Hy as (Hoy & Hsy & Fy).
  unfold roi_ok; simpl. rewrite !zipw_length. split; [lia|split; [lia|]].
  apply union_shape_nonneg; assumption.
Qed.

Lemma zipw_max_nonneg (s1 s2 : list Z) :
  Forall (fun z => 0 <= z) s1 -> Forall (fun z => 0 <= z) s2 ->
  Forall (fun z => 0 <= z) (zipw Z.max s1 s2).
Proof.
  revert s2. induction s1 as [|a s1 IH]; intros [|b s2] F1 F2; simpl; try constructor.
  - inversion F1; subst. lia.
  - inversion F1; inversion F2; subst. apply IH; assumption.
Qed.

Lemma union_centered (d : nat) (c : Coordinate) (x y : Roi) :
  length c = d -> roi_centered d c x -> roi_centered d c y ->
  exists z, union x y = Ok z /\ roi_centered d c z.
Proof.
  intros Hc [Hx Ex] [Hy Ey]. rewrite (union_eq d x y Hx Hy).
  destruct Hx as (Hox & Hsx & Fx), Hy as (Hoy & Hsy & Fy).
  destruct x as [ox sx], y as [oy sy]; simpl in *.
  unfold centered_roi in Ex, Ey. injection Ex as Ex. injection Ey as Ey. subst ox oy.
  destruct (centered_union_lists c sx sy) as [E1 E2]; try assumption; try lia.
  simpl in E1, E2. rewrite E1, E2.
  exists (centered_roi c (zipw Z.max sx sy)). split; [reflexivity|].
  unfold roi_centered, roi_ok, centered_roi; simpl. rewrite !zipw_length.
  split; [|reflexivity]. split; [lia|split; [lia|]]. apply zipw_max_nonneg; assumption.
Qed.

Lemma get_center_ok (d : nat) (x : Roi) :
  roi_ok d x -> get_center x = Ok (zipw Z.add (roi_offset x) (coord_half (roi_shape x))).
Proof.
  intros (Ho & Hs & _). unfold get_center. apply coord_zip_ok.
  unfold coord_half. rewrite length_map. lia.
Qed.

Lemma get_center_centered (c sh : Coordinate) :
  length sh = length c -> get_center (centered_roi c sh) = Ok c.
Proof.
  intros H. unfold get_center, centered_roi, coord_add; simpl.
  rewrite coord_zip_ok by (unfold coord_half; rewrite zipw_length, length_map; lia).
  f_equal. revert sh H. induction c as [|ci c IH]; intros [|a sh] H; simpl in *; try done.
  rewrite IH by lia. f_equal. lia.
Qed.

Lemma shift_to_center (o c sh : list Z) :
  length o = length c -> length sh = length c ->
  zipw Z.add o (zipw Z.sub c (zipw Z.add o (coord_half sh)))
    = roi_offset (centered_roi c sh).
Proof.
  unfold coord_half, centered_roi; simpl. revert o sh.
  induction c as [|ci c IH]; intros [|a o] [|b sh] H1 H2; simpl in *; try done; try lia.
  rewrite IH by lia. f_equal. lia.
Qed.

(** One step of [__center_rois]: the ROI is moved to be centered at [c]. *)
Lemma center_roi_at_spec (d : nat) (c : Coordinate) (s : State) (l : loc) :
  length c = d -> loc_roi (roi_ok d) s l ->
  exists v x, heap s !! l = Some v /\ spec_nonspatial v = false /\ spec_roi v = Some x /\
    center_roi_at c l s
      = (Ok tt, mkState (<[l := spec_set_roi v (Some (centered_roi c (roi_shape x)))]> (heap s))
                        (next_loc s)).
Proof.
  intros Hc (v & x & Hv & Hns & Hx & Hok). exists v, x. do 3 (split; [assumption|]).
  unfold center_roi_at, bindM, deref. rewrite Hv, Hx.
  unfold liftR. rewrite (get_center_ok d x Hok). unfold coord_sub, coord_add.
  destruct Hok as (Ho & Hs & _).
  rewrite coord_zip_ok by (unfold coord_half; rewrite zipw_length, length_map; lia).
  unfold shift, coord_add. rewrite coord_zip_ok by (unfold coord_half; rewrite !zipw_length, length_map; lia).
  simpl. rewrite shift_to_center by lia. reflexivity.
Qed.

Lemma loc_roi_frame (P : Roi -> Prop) (s s' : State) (l : loc) :
  heap s' !! l = heap s !! l -> loc_roi P s l -> loc_roi P s' l.
Proof. intros E (v & x & H & H'). exists v, x. rewrite E. auto. Qed.

Lemma loc_roi_mono (P Q : Roi -> Prop) (s : State) (l : loc) :
  (forall x, P x -> Q x) -> loc_roi P s l -> loc_roi Q s l.
Proof. intros HPQ (v & x & H1 & H2 & H3 & H4). exists v, x. auto. Qed.

Lemma centered_roi_ok (d : nat) (c sh : Coordinate) :
  length c = d -> length sh = d -> Forall (fun z => 0 <= z) sh ->
  roi_centered d c (centered_roi c sh).
Proof.
  intros Hc Hs F. unfold roi_centered, roi_ok, centered_roi; simpl.
  rewrite zipw_length. split; [|reflexivity]. split; [lia|auto].
Qed.

Lemma center_all (d : nat) (c : Coordinate) (ls : list loc) (s : State) :
  length c = d -> Forall (loc_roi (roi_ok d) s) ls ->
  exists s', mapM_ (center_roi_at c) ls s = (Ok tt, s') /\ next_loc s' = next_loc s /\
    Forall (loc_roi (roi_centered d c) s') ls /\
    (forall l, ~ In l ls -> heap s' !! l = heap s !! l).
Proof.
  intros Hc. revert s. induction ls as [|l ls IH]; intros s F.
  - exists s. split; [reflexivity|]. split; [reflexivity|]. split; [constructor|auto].
  - pose proof (List.Forall_inv F) as Hl. pose proof (List.Forall_inv_tail F) as F'.
    destruct (center_roi_at_spec d c s l Hc Hl) as (v & x & Hv & Hns & Hx & Hrun).
    set (s1 := mkState (<[l := spec_set_roi v (Some (centered_roi c (roi_shape x)))]> (heap s))
                       (next_loc s)) in Hrun.
    assert (Hl1 : loc_roi (roi_centered d c) s1 l).
    { destruct Hl as (v' & x' & Hv' & _ & Hx' & Hok). rewrite Hv in Hv'. injection Hv' as <-.
      rewrite Hx in Hx'. injection Hx' as <-.
      exists (spec_set_roi v (Some (centered_roi c (roi_shape x)))), (centered_roi c (roi_shape x)).
      unfold s1; simpl. rewrite lookup_insert_eq. split; [reflexivity|].
      destruct Hok as (Ho & Hs & Fs).
      split; [destruct v; simpl in *; assumption|]. split; [destruct v; reflexivity|].
      apply centered_roi_ok; assumption. }
    assert (F1 : Forall (loc_roi (roi_ok d) s1) ls).
    { rewrite List.Forall_forall in F' |- *. intros l' Hl'.
      destruct (decide (l' = l)) as [->|Hne].
      - apply (loc_roi_mono (roi_centered d c)); [intros ? []; assumption|exact Hl1].
      - apply (loc_roi_frame _ s); [unfold s1; simpl; apply lookup_insert_ne; congruence|].
        apply F'. exact Hl'. }
    destruct (IH s1 F1) as (s' & Hrun' & Hn & Fc & Hfr).
    exists s'. split; [|split; [|split]].
    + simpl. unfold bindM. rewrite Hrun. exact Hrun'.
    + rewrite Hn. reflexivity.
    + constructor; [|exact Fc].
      destruct (in_dec Nat.eq_dec l ls) as [Hin|Hnin].
      * rewrite List.Forall_forall in Fc. apply Fc. exact Hin.
      * apply (loc_roi_frame _ s1); [apply Hfr; exact Hnin|exact Hl1].
    + intros l' Hl'. rewrite Hfr by (intros H; apply Hl'; right; exact H).
      unfold s1; simpl. apply lookup_insert_ne. intros ->. apply Hl'. left. reflexivity.
Qed.

(** The fold of [get_total_roi] over ROIs of a class closed under [union]. *)
Lemma total_fold (Q : Roi -> Prop)
    (HQ : forall x y, Q x -> Q y -> exists z, union x y = Ok z /\ Q z)
    (its : list (Key * loc)) (acc : option Roi) (s : State) :
  Forall (fun kl => loc_roi Q s (snd kl)) its ->
  match acc with None => True | Some a => Q a end ->
  exists res,
    foldM (fun total kl =>
             do v <- deref (snd kl);
             if spec_nonspatial v then retM total
             else liftR (union_opt total (spec_roi v))) acc its s = (Ok res, s) /\
    match res with None => acc = None /\ its = [] | Some a => Q a end.
Proof.
  revert acc. induction its as [|[k l] its IH]; intros acc F Hacc.
  - exists acc. split; [reflexivity|]. destruct acc; auto.
  - pose proof (List.Forall_inv F) as Hl. pose proof (List.Forall_inv_tail F) as F'. destruct Hl as (v & x & Hv & Hns & Hx & HQx).
    simpl in Hv.
    assert (Hstep : exists acc', union_opt acc (Some x) = Ok (Some acc') /\ Q acc').
    { destruct acc as [a|]; simpl.
      - destruct (HQ a x Hacc HQx) as (z & Hz & HQz). rewrite Hz. exists z. auto.
      - exists x. auto. }
    destruct Hstep as (acc' & Hu & HQa).
    destruct (IH (Some acc') F' HQa) as (res & Hrun & Hres).
    exists res. split.
    + simpl. unfold bindM at 1. unfold bindM at 1. unfold deref at 1. simpl. rewrite Hv, Hns.
      unfold liftR. rewrite Hx, Hu. exact Hrun.
    + destruct res as [a|]; [exact Hres|destruct Hres; discriminate].
Qed.

Lemma total_roi_ok (Q : Roi -> Prop)
    (HQ : forall x y, Q x -> Q y -> exists z, union x y = Ok z /\ Q z)
    (r : BatchRequest) (s : State) (l : loc) :
  Forall (loc_roi Q s) (locs r) -> In l (locs r) ->
  exists t, get_total_roi r s = (Ok (Some t), s) /\ Q t.
Proof.
  intros F Hl. unfold locs in F, Hl. rewrite List.Forall_map in F.
  destruct (total_fold Q HQ (items r) None s F I) as (res & Hrun & Hres).
  destruct res as [t|].
  - exists t. split; [exact Hrun|exact Hres].
  - destruct Hres as [_ He]. rewrite He in Hl. destruct Hl.
Qed.

(** One [add]: the invariant is kept and every spec ends up centered at
    the center of the total ROI computed before the centering pass. *)
Lemma add_step (d : nat) (s : State) (r : BatchRequest) (k : Key) (sh : Coordinate)
    (vs : option Coordinate) :
  add_inv d s r -> length sh = d -> Forall (fun z => 0 <= z) sh ->
  exists r' s' c, add r k sh vs s = (Ok r', s') /\ add_inv d s' r' /\ length c = d /\
    Forall (loc_roi (roi_centered d c) s') (locs r').
Proof.
  intros [Fr Fl] Hd Hsh. unfold add. cbv zeta.
  match goal with |- context [setitem r k ?sp] => set (spec := sp) end.
  assert (Hspec : spec_nonspatial spec = false /\
                  spec_roi spec = Some (mkRoi (repeat 0 (length sh)) sh)).
  { unfold spec. destruct k; split; reflexivity. }
  set (l := next_loc s).
  set (s1 := mkState (<[l := spec]> (heap s)) (S l)).
  set (r' := req_set_loc r k l).
  assert (F1 : Forall (loc_roi (roi_ok d) s1) (locs r')).
  { rewrite List.Forall_forall. intros x Hx.
    destruct (req_set_locs r k l x Hx) as [->|Hin].
    - exists spec, (mkRoi (repeat 0 (length sh)) sh). unfold s1; simpl.
      rewrite lookup_insert_eq. destruct Hspec as [Hn Hr]. do 3 (split; [assumption || reflexivity|]).
      unfold roi_ok; simpl. rewrite repeat_length. auto.
    - rewrite List.Forall_forall in Fr, Fl.
      apply (loc_roi_frame _ s); [|apply Fr; exact Hin].
      unfold s1; simpl. apply lookup_insert_ne. specialize (Fl x Hin). unfold l. lia. }
  assert (Hl : In l (locs r')).
  { apply (req_get_locs r' k). apply req_get_set_eq. }
  destruct (total_roi_ok (roi_ok d) (union_ok d) r' s1 l F1 Hl) as (t & Ht & Hok).
  destruct (center_all d (zipw Z.add (roi_offset t) (coord_half (roi_shape t))) (locs r') s1)
    as (s2 & Hrun & Hn & Fc & _); [|exact F1|].
  { destruct Hok as (Ho & Hs & _). unfold coord_half. rewrite zipw_length, length_map. lia. }
  exists r', s2, (zipw Z.add (roi_offset t) (coord_half (roi_shape t))).
  split; [|split; [|split]].
  - unfold bindM at 1. change (setitem r k spec s) with (@Ok BatchRequest r', s1).
    cbn iota beta. unfold bindM at 1. unfold center_rois, bindM at 1. rewrite Ht. unfold liftR.
    rewrite (get_center_ok d t Hok), <- locs_eq. unfold bindM. cbn iota beta.
    rewrite Hrun. reflexivity.
  - split.
    + rewrite List.Forall_forall in Fc |- *. intros x Hx.
      apply (loc_roi_mono (roi_centered d (zipw Z.add (roi_offset t) (coord_half (roi_shape t)))));
        [intros ? []; assumption|apply Fc; exact Hx].
    + rewrite List.Forall_forall. intros x Hx. rewrite Hn. unfold s1; simpl.
      destruct (req_set_locs r k l x Hx) as [->|Hin]; [unfold l; lia|].
      rewrite List.Forall_forall in Fl. specialize (Fl x Hin). unfold l. lia.
  - destruct Hok as (Ho & Hs & _). unfold coord_half. rewrite zipw_length, length_map. lia.
  - exact Fc.
Qed.

Lemma run_adds_fold (d : nat) (ops : list (Key * Coordinate * option Coordinate))
    (r0 : BatchRequest) (s0 : State) :
  Forall (fun op => length (snd (fst op)) = d /\ Forall (fun z => 0 <= z) (snd (fst op))) ops ->
  add_inv d s0 r0 ->
  (locs r0 = [] \/ exists c, length c = d /\ Forall (loc_roi (roi_centered d c) s0) (locs r0)) ->
  exists r s, foldM (fun r op => let '(k, sh, vs) := op in add r k sh vs) r0 ops s0 = (Ok r, s) /\
    add_inv d s r /\
    (locs r = [] \/ exists c, length c = d /\ Forall (loc_roi (roi_centered d c) s) (locs r)).
Proof.
  revert r0 s0. induction ops as [|[[k sh] vs] ops IH]; intros r0 s0 F Hinv Hc.
  - exists r0, s0. auto.
  - pose proof (List.Forall_inv F) as [Hd Hsh]. pose proof (List.Forall_inv_tail F) as F'.
    simpl in Hd, Hsh.
    destruct (add_step d s0 r0 k sh vs Hinv Hd Hsh) as (r1 & s1 & c & Hrun & Hinv1 & Hcd & Fc).
    destruct (IH r1 s1 F' Hinv1 (or_intror (ex_intro _ c (conj Hcd Fc)))) as (r & s & Hrun' & H).
    exists r, s. split; [|exact H].
    simpl. unfold bindM at 1. rewrite Hrun. exact Hrun'.
Qed.

(** C1: after any sequence of [add] calls with [d]-dimensional
    nonnegative shapes, the center of the ROI of every spatial spec in the
    request equals the center of the request's [total_roi] (exactly, with
    the integer halving of [get_center]). *)
Theorem add_keeps_centered (d : nat) (ops : list (Key * Coordinate * option Coordinate)) :
  Forall (fun op => length (snd (fst op)) = d /\ Forall (fun z => 0 <= z) (snd (fst op))) ops ->
  exists r s, run_adds ops empty_state = (Ok r, s) /\
    forall k v, spec_of s r k = Some v -> spec_nonspatial v = false ->
      exists x t c, spec_roi v = Some x /\ get_total_roi r s = (Ok (Some t), s) /\
                    get_center t = Ok c /\ get_center x = Ok c.
Proof.
  intros F.
  destruct (run_adds_fold d ops BatchRequest_new empty_state F) as (r & s & Hrun & _ & Hc).
  { split; constructor. }
  { left. reflexivity. }
  exists r, s. split; [exact Hrun|]. intros k v Hv _.
  destruct (spec_of_req_get s r k v Hv) as (l & Hg & Hh).
  pose proof (req_get_locs r k l Hg) as Hl.
  destruct Hc as [Hnil|(c & Hcd & Fc)]; [rewrite Hnil in Hl; destruct Hl|].
  destruct (total_roi_ok (roi_centered d c) (fun x y => union_centered d c x y Hcd) r s l Fc Hl)
    as (t & Ht & [Hokt Et]).
  rewrite List.Forall_forall in Fc. destruct (Fc l Hl) as (v' & x & Hv' & _ & Hx & [Hokx Ex]).
  rewrite Hh in Hv'. injection Hv' as <-.
  exists x, t, c. split; [exact Hx|]. split; [exact Ht|].
  destruct Hokt as (_ & Hst & _), Hokx as (_ & Hsx & _).
  rewrite Et, Ex. split; apply get_center_centered; lia.
Qed.

Lemma add_keeps_centered_witness :
  Forall (fun op => length (snd (fst op)) = 2%nat /\ Forall (fun z => 0 <= z) (snd (fst op)))
    [(ArrayKey "labels", [10; 10], None); (ArrayKey "raw", [20; 20], Some [1; 1])] /\
  exists r s, run_adds [(ArrayKey "labels", [10; 10], None); (ArrayKey "raw", [20; 20], Some [1; 1])]
                empty_state = (Ok r, s) /\
    forall k v, spec_of s r k = Some v -> spec_nonspatial v = false ->
      exists x t c, spec_roi v = Some x /\ get_total_roi r s = (Ok (Some t), s) /\
                    get_center t = Ok c /\ get_center x = Ok c.
Proof.
  assert (F : Forall (fun op => length (snd (fst op)) = 2%nat /\ Forall (fun z => 0 <= z) (snd (fst op)))
    [(ArrayKey "labels", [10; 10], None); (ArrayKey "raw", [20; 20], Some [1; 1])]).
  { repeat constructor; simpl; lia. }
  split; [exact F|]. exact (add_keeps_centered 2 _ F).
Defined.

(* ================================================================== *)
(** * Nonspatial specs and the centering pass *)

(** C5: [__center_rois] shifts every spec, nonspatial ones included.  On a
    request holding a nonspatial array spec with no ROI, [add] raises
    [AttributeError] ([None.shift]); when the nonspatial spec has the ROI
    [(0, 4)], adding a spatial [(0, 10)] ROI moves it to [(3, 4)]. *)
Lemma center_rois_moves_nonspatial :
  spec_nonspatial (ns_spec None) = true /\
  fst (add ns_request (ArrayKey "raw") [10] None (ns_state None)) = Error AttributeError /\
  match add ns_request (ArrayKey "raw") [10] None (ns_state (Some (roi1 0 4))) with
  | (Ok r, s') => spec_of s' r (ArrayKey "n") = Some (ns_spec (Some (roi1 3 4)))
  | _ => False
  end.
Proof. split; [reflexivity|]. split; vm_compute; reflexivity. Qed.

(* ================================================================== *)
(** * BatchRequest: [copy], [merge] and [add] key by key *)

Local Open Scope nat_scope.

Lemma copy_dict_ok (d : dict) (s : State) :
  Forall (fun kl => snd kl < next_loc s /\ heap s !! snd kl <> None) d ->
  exists d' s', copy_dict d s = (Ok d', s').
Proof.
  revert s. induction d as [|[k l] d IH]; intros s F.
  - do 2 eexists. reflexivity.
  - pose proof (List.Forall_inv F) as [Hl Hv]. pose proof (List.Forall_inv_tail F) as F'.
    simpl in Hl, Hv. destruct (heap s !! l) as [v|] eqn:Hh; [|congruence].
    set (s1 := mkState (<[next_loc s := v]> (heap s)) (S (next_loc s))).
    destruct (IH s1) as (d' & s' & Hrun).
    { rewrite List.Forall_forall in F' |- *. intros [k' l'] Hin.
      destruct (F' _ Hin) as [H1 H2]. simpl in *. split; [lia|].
      rewrite lookup_insert_ne by lia. exact H2. }
    exists ((k, next_loc s) :: d'), s'.
    simpl. unfold bindM at 1, deref at 1. rewrite Hh. unfold bindM at 1, alloc at 1.
    fold s1. unfold bindM. rewrite Hrun. reflexivity.
Qed.

Lemma copy_dict_locs (d : dict) (s : State) (d' : dict) (s' : State) :
  copy_dict d s = (Ok d', s') -> next_loc s <= next_loc s'.
Proof.
  revert s d'. induction d as [|[k l] d IH]; intros s d' Hrun; simpl in Hrun.
  - injection Hrun as _ <-. lia.
  - unfold bindM at 1, deref at 1 in Hrun. destruct (heap s !! l); [|discriminate].
    unfold bindM at 1, alloc at 1 in Hrun. unfold bindM in Hrun.
    destruct (copy_dict d _) as [[d1|e] s1] eqn:Hc; [|discriminate].
    injection Hrun as _ <-. apply IH in Hc. simpl in Hc. lia.
Qed.

Lemma wf_copy_dict_ok (s : State) (d : dict) (P : string * loc -> Prop) :
  Forall (fun l => l < next_loc s) (map snd d) ->
  Forall P d -> (forall kl, P kl -> heap s !! snd kl <> None) ->
  Forall (fun kl => snd kl < next_loc s /\ heap s !! snd kl <> None) d.
Proof.
  intros Hlt HP HPs. rewrite List.Forall_forall in Hlt, HP |- *. intros kl Hkl.
  split; [exact (Hlt _ (in_map snd _ _ Hkl))|apply HPs, HP, Hkl].
Qed.

(** [copy()] of a well-formed request succeeds; the copy holds the same
    specs as the original, and writing to any spec object of the copy
    leaves every spec of the original as it was. *)
Theorem copy_deep (s : State) (r : BatchRequest) :
  req_wf s r ->
  exists m s', copy r s = (Ok m, s') /\
    (forall k, spec_of s' m k = spec_of s r k) /\
    forall l v k, In l (locs m) -> spec_of (mkState (<[l := v]> (heap s')) (next_loc s')) r k = spec_of s r k.
Proof.
  intros Hw. pose proof Hw as (Hlt & _ & _ & HA & HG).
  pose proof Hlt as Hlt'. rewrite locs_eq, List.Forall_app in Hlt'. destruct Hlt' as [HltA HltG].
  destruct (copy_dict_ok (array_specs r) s) as (a & s1 & Ha).
  { apply (wf_copy_dict_ok s _ (in_array_dict s)); [exact HltA|exact HA|].
    intros kl H. unfold in_array_dict in H. destruct (heap s !! snd kl); [discriminate|done]. }
  pose proof (copy_dict_locs _ _ _ _ Ha) as Hn1.
  destruct (copy_dict_spec _ _ _ _ Ha HltA) as (_ & Hfr1 & _).
  destruct (copy_dict_ok (graph_specs r) s1) as (g & s2 & Hg).
  { apply (wf_copy_dict_ok s1 _ (in_graph_dict s1)).
    - eapply List.Forall_impl; [|exact HltG]. simpl. lia.
    - rewrite List.Forall_forall in HG, HltG |- *. intros kl Hkl. specialize (HG kl Hkl).
      unfold in_graph_dict in *. rewrite Hfr1; [exact HG|exact (HltG _ (in_map snd _ _ Hkl))].
    - intros kl H. unfold in_graph_dict in H. destruct (heap s1 !! snd kl); [discriminate|done]. }
  assert (Hrun : copy r s = (Ok (mkRequest a g), s2)).
  { unfold copy, bindM. rewrite Ha, Hg. reflexivity. }
  destruct (copy_spec _ _ _ _ Hrun Hlt) as (Hn & Hfr & Hres).
  destruct (Hres _ eq_refl) as (Hin & _ & _ & Hspec).
  exists (mkRequest a g), s2. split; [exact Hrun|]. split; [exact Hspec|].
  intros l v k Hl. rewrite List.Forall_forall in Hin. specialize (Hin l Hl).
  apply spec_of_frame. intros l' Hl'. simpl.
  rewrite List.Forall_forall in Hlt. specialize (Hlt l' Hl').
  rewrite lookup_insert_ne by lia. apply Hfr. exact Hlt.
Qed.

Lemma items_req_get_none (r : BatchRequest) (k : Key) :
  req_get r k = None -> ~ In k (map fst (items r)).
Proof.
  intros H Hin. apply in_map_iff in Hin as ([k' l] & Hk & Hin). simpl in Hk. subst k'.
  unfold items in Hin. apply in_app_or in Hin as [Hin|Hin]; apply in_map_iff in Hin as ([n l'] & He & Hin);
    injection He as <- <-; simpl in H; apply dict_get_none in H; apply H;
    exact (in_map fst _ _ Hin).
Qed.

Lemma wf_spec_of_some (s : State) (r : BatchRequest) (k : Key) (l : loc) :
  req_wf s r -> req_get r k = Some l -> exists v, heap s !! l = Some v.
Proof.
  intros (_ & _ & _ & HA & HG). destruct k as [n|n]; simpl; intros E; apply dict_get_in in E.
  - rewrite List.Forall_forall in HA. specialize (HA _ E). unfold in_array_dict in HA. simpl in HA.
    destruct (heap s !! l) as [v|]; [eauto|contradiction].
  - rewrite List.Forall_forall in HG. specialize (HG _ E). unfold in_graph_dict in HG. simpl in HG.
    destruct (heap s !! l) as [v|]; [eauto|contradiction].
Qed.

(** [merge(request)] on well-formed requests: the merged request has a
    spec exactly for the keys of [self] and of [request]; a key only in
    [self] keeps [self]'s spec and a key only in [request] gets
    [request]'s spec, unchanged. *)
Theorem merge_keys (r1 r2 : BatchRequest) (s : State) (m : BatchRequest) (s' : State) :
  req_wf s r1 -> req_wf s r2 -> merge r1 r2 s = (Ok m, s') ->
  forall k,
    (spec_of s' m k <> None <-> spec_of s r1 k <> None \/ spec_of s r2 k <> None) /\
    (spec_of s r2 k = None -> spec_of s' m k = spec_of s r1 k) /\
    (spec_of s r1 k = None -> spec_of s' m k = spec_of s r2 k).
Proof.
  intros Hw1 Hw2 Hrun k.
  destruct (merge_spec _ _ _ _ _ (proj1 Hw1) Hw2 Hrun) as (_ & Hres).
  destruct (Hres m eq_refl) as (_ & Hoth & Hnew).
  destruct (req_get r2 k) as [l|] eqn:E.
  - destruct (Hnew k l (req_get_items _ _ _ E)) as (inc & v & Hinc & Hv & Hget).
    assert (H2 : spec_of s r2 k = Some inc) by (unfold spec_of; rewrite E; exact Hinc).
    rewrite Hget, H2. split; [split; [intros _; right; discriminate|intros _; discriminate]|].
    split; [discriminate|]. intros H1. rewrite H1 in Hv. simpl in Hv. congruence.
  - assert (H2 : spec_of s r2 k = None) by (unfold spec_of; rewrite E; reflexivity).
    rewrite H2. rewrite (Hoth k (items_req_get_none r2 k E)).
    split; [tauto|]. split; [reflexivity|]. intros ->. reflexivity.
Qed.

Lemma spec_set_roi_twice (v : Spec) (a b : option Roi) :
  spec_set_roi (spec_set_roi v a) b = spec_set_roi v b.
Proof. destruct v; reflexivity. Qed.

Lemma spec_roi_set (v : Spec) (a : option Roi) : spec_roi (spec_set_roi v a) = a.
Proof. destruct v; reflexivity. Qed.

(** [__center_rois]' loop, value by value: each listed spec keeps every
    field but its ROI, which becomes the ROI of the same shape centered
    at [c]. *)
Lemma center_all_vals (d : nat) (c : Coordinate) (ls : list loc) (s : State) :
  length c = d -> Forall (loc_roi (roi_ok d) s) ls ->
  exists s', mapM_ (center_roi_at c) ls s = (Ok tt, s') /\
    forall l v x, In l ls -> heap s !! l = Some v -> spec_roi v = Some x ->
      heap s' !! l = Some (spec_set_roi v (Some (centered_roi c (roi_shape x)))).
Proof.
  intros Hc. revert s. induction ls as [|l ls IH]; intros s F.
  - exists s. split; [reflexivity|]. intros l v x [].
  - pose proof (List.Forall_inv F) as Hl. pose proof (List.Forall_inv_tail F) as F'.
    destruct (center_roi_at_spec d c s l Hc Hl) as (v0 & x0 & Hv0 & Hns & Hx0 & Hrun).
    set (s1 := mkState (<[l := spec_set_roi v0 (Some (centered_roi c (roi_shape x0)))]> (heap s))
                       (next_loc s)) in Hrun.
    assert (F1 : Forall (loc_roi (roi_ok d) s1) ls).
    { rewrite List.Forall_forall in F' |- *. intros l' Hl'.
      destruct (decide (l' = l)) as [->|Hne].
      - destruct Hl as (v' & x' & Hv' & _ & Hx' & Hok). rewrite Hv0 in Hv'. injection Hv' as <-.
        rewrite Hx0 in Hx'. injection Hx' as <-.
        exists (spec_set_roi v0 (Some (centered_roi c (roi_shape x0)))), (centered_roi c (roi_shape x0)).
        unfold s1; simpl. rewrite lookup_insert_eq. split; [reflexivity|].
        split; [destruct v0; simpl in *; assumption|]. split; [apply spec_roi_set|].
        destruct Hok as (Ho & Hs & Fs). apply centered_roi_ok; assumption.
      - apply (loc_roi_frame _ s); [unfold s1; simpl; apply lookup_insert_ne; congruence|].
        apply F'. exact Hl'. }
    destruct (IH s1 F1) as (s' & Hrun' & Hvals).
    destruct (center_all d c ls s1 Hc F1) as (s'' & Hrun'' & _ & _ & Hfr).
    rewrite Hrun' in Hrun''. injection Hrun'' as <-.
    exists s'. split; [simpl; unfold bindM; rewrite Hrun; exact Hrun'|].
    intros l0 v x Hin Hv Hx. destruct (decide (l0 = l)) as [->|Hne].
    + rewrite Hv0 in Hv. injection Hv as <-. rewrite Hx0 in Hx. injection Hx as <-.
      destruct (in_dec Nat.eq_dec l ls) as [Hin'|Hnin].
      * rewrite (Hvals l (spec_set_roi v0 (Some (centered_roi c (roi_shape x0)))) (centered_roi c (roi_shape x0)) Hin'); cycle 1.
        { unfold s1; simpl. apply lookup_insert_eq. }
        { apply spec_roi_set. }
        rewrite spec_set_roi_twice. reflexivity.
      * rewrite Hfr by exact Hnin. unfold s1; simpl. apply lookup_insert_eq.
    + destruct Hin as [->|Hin]; [congruence|].
      apply (Hvals l0 v x Hin); [|exact Hx]. unfold s1; simpl.
      rewrite lookup_insert_ne by congruence. exact Hv.
Qed.

(** [add(key, shape, voxel_size)] on a request built by [add] calls: [key]
    gets a fresh spec whose ROI has shape [shape] (for an array key:
    [voxel_size], no dtype, spatial; for a graph key: dtype float32);
    every other key keeps its spec, all fields
    but the ROI unchanged and the ROI's shape unchanged; no other key is
    added. *)
Theorem add_lookup (d : nat) (s : State) (r : BatchRequest) (k : Key) (sh : Coordinate)
    (vs : option Coordinate) :
  add_inv d s r -> length sh = d -> Forall (fun z => 0 <= z)%Z sh ->
  exists r' s', add r k sh vs s = (Ok r', s') /\
    (exists x, roi_shape x = sh /\
       spec_of s' r' k = Some (match k with
                               | ArrayKey _ => SArray (mkArraySpec (Some x) vs None false)
                               | GraphKey _ => SGraph (mkGraphSpec (Some x) (Some "float32"%string))
                               end)) /\
    forall k', k' <> k ->
      match spec_of s r k' with
      | None => spec_of s' r' k' = None
      | Some v => exists x x', spec_roi v = Some x /\ roi_shape x' = roi_shape x /\
                    spec_of s' r' k' = Some (spec_set_roi v (Some x'))
      end.
Proof.
  intros [Fr Fl] Hd Hsh. unfold add. cbv zeta.
  match goal with |- context [setitem r k ?sp] => set (spec := sp) end.
  assert (Hspec : spec_nonspatial spec = false /\
                  spec_roi spec = Some (mkRoi (repeat 0%Z (length sh)) sh)).
  { unfold spec. destruct k; split; reflexivity. }
  set (l := next_loc s).
  set (s1 := mkState (<[l := spec]> (heap s)) (S l)).
  set (r' := req_set_loc r k l).
  assert (F1 : Forall (loc_roi (roi_ok d) s1) (locs r')).
  { rewrite List.Forall_forall. intros x Hx.
    destruct (req_set_locs r k l x Hx) as [->|Hin].
    - exists spec, (mkRoi (repeat 0%Z (length sh)) sh). unfold s1; simpl.
      rewrite lookup_insert_eq. destruct Hspec as [Hn Hr]. do 3 (split; [assumption || reflexivity|]).
      unfold roi_ok; simpl. rewrite repeat_length. auto.
    - rewrite List.Forall_forall in Fr, Fl.
      apply (loc_roi_frame _ s); [|apply Fr; exact Hin].
      unfold s1; simpl. apply lookup_insert_ne. specialize (Fl x Hin). unfold l. lia. }
  assert (Hl : In l (locs r')).
  { apply (req_get_locs r' k). apply req_get_set_eq. }
  destruct (total_roi_ok (roi_ok d) (union_ok d) r' s1 l F1 Hl) as (t & Ht & Hok).
  set (c := zipw Z.add (roi_offset t) (coord_half (roi_shape t))).
  assert (Hc : length c = d).
  { destruct Hok as (Ho & Hs & _). unfold c, coord_half. rewrite zipw_length, length_map. lia. }
  destruct (center_all_vals d c (locs r') s1 Hc F1) as (s2 & Hrun & Hvals).
  exists r', s2. split; [|split].
  - unfold bindM at 1. change (setitem r k spec s) with (@Ok BatchRequest r', s1).
    cbn iota beta. unfold bindM at 1. unfold center_rois, bindM at 1. rewrite Ht. unfold liftR.
    rewrite (get_center_ok d t Hok), <- locs_eq. unfold bindM. cbn iota beta.
    fold c. rewrite Hrun. reflexivity.
  - exists (centered_roi c sh). split; [reflexivity|].
    unfold spec_of, r'. rewrite req_get_set_eq.
    rewrite (Hvals l spec _ Hl) by (unfold s1; simpl; apply lookup_insert_eq || apply Hspec).
    simpl. unfold spec. destruct k; simpl.
    + destruct vs; reflexivity.
    + reflexivity.
  - intros k' Hk'. unfold spec_of. unfold r'. rewrite req_get_set_ne by congruence.
    destruct (req_get r k') as [l'|] eqn:E; [|reflexivity].
    pose proof (req_get_locs _ _ _ E) as Hin.
    rewrite List.Forall_forall in Fr, Fl. specialize (Fl l' Hin).
    destruct (Fr l' Hin) as (v & x & Hv & _ & Hx & _). rewrite Hv.
    exists x, (centered_roi c (roi_shape x)). split; [exact Hx|]. split; [reflexivity|].
    apply (Hvals l' v x); [|unfold s1; simpl; rewrite lookup_insert_ne by (unfold l; lia); exact Hv|exact Hx].
    apply (req_get_locs r' k'). unfold r'. rewrite req_get_set_ne by congruence. exact E.
Qed.

Lemma copy_deep_witness :
  req_wf ex_state ex_r2 /\
  exists m s', copy ex_r2 ex_state = (Ok m, s') /\
    (forall k, spec_of s' m k = spec_of ex_state ex_r2 k) /\
    forall l v k, In l (locs m) ->
      spec_of (mkState (<[l := v]> (heap s')) (next_loc s')) ex_r2 k = spec_of ex_state ex_r2 k.
Proof.
  assert (Hw : req_wf ex_state ex_r2) by (repeat split; vm_compute; repeat constructor; simpl; intuition discriminate).
  split; [exact Hw|]. exact (copy_deep ex_state ex_r2 Hw).
Defined.

Lemma merge_keys_witness :
  exists m s', merge ex_r1 ex_r2 ex_state = (Ok m, s') /\
    forall k,
      (spec_of s' m k <> None <-> spec_of ex_state ex_r1 k <> None \/ spec_of ex_state ex_r2 k <> None) /\
      (spec_of ex_state ex_r2 k = None -> spec_of s' m k = spec_of ex_state ex_r1 k) /\
      (spec_of ex_state ex_r1 k = None -> spec_of s' m k = spec_of ex_state ex_r2 k).
Proof.
  destruct (merge ex_r1 ex_r2 ex_state) as [res s'] eqn:Hrun.
  pose proof Hrun as Hc. vm_compute in Hc. injection Hc as <- _.
  eexists _, s'. split; [reflexivity|].
  apply (merge_keys ex_r1 ex_r2 ex_state _ s');
    [repeat split; vm_compute; repeat constructor; simpl; intuition discriminate
    |repeat split; vm_compute; repeat constructor; simpl; intuition discriminate
    |exact Hrun].
Defined.

Lemma add_lookup_witness :
  add_inv 1 ex_state ex_r3 /\
  exists r' s', add ex_r3 (ArrayKey "raw") [6%Z] (Some [2%Z]) ex_state = (Ok r', s') /\
    (exists x, roi_shape x = [6%Z] /\
       spec_of s' r' (ArrayKey "raw") = Some (SArray (mkArraySpec (Some x) (Some [2%Z]) None false))) /\
    forall k', k' <> ArrayKey "raw" ->
      match spec_of ex_state ex_r3 k' with
      | None => spec_of s' r' k' = None
      | Some v => exists x x', spec_roi v = Some x /\ roi_shape x' = roi_shape x /\
                    spec_of s' r' k' = Some (spec_set_roi v (Some x'))
      end.
Proof.
  assert (Hi : add_inv 1 ex_state ex_r3).
  { split; vm_compute; repeat constructor.
    - eexists _, _. split; [reflexivity|]. split; [reflexivity|]. split; [reflexivity|].
      split; [reflexivity|]. split; [reflexivity|]. repeat constructor; discriminate.
    - eexists _, _. split; [reflexivity|]. split; [reflexivity|]. split; [reflexivity|].
      split; [reflexivity|]. split; [reflexivity|]. repeat constructor; discriminate. }
  split; [exact Hi|].
  exact (add_lookup 1 ex_state ex_r3 (ArrayKey "raw") [6%Z] (Some [2%Z]) Hi eq_refl
           ltac:(repeat constructor; discriminate)).
Defined.

(* ================================================================== *)
(** * BalanceLabels: behaviour of [process] and [setup] *)

Local Open Scope Q_scope.

Lemma clip_bounds (x lo hi : Q) : lo <= hi -> lo <= clip x lo hi <= hi.
Proof.
  intros Hlh. unfold clip.
  destruct (Q.max_spec x lo) as [[H1 H2]|[H1 H2]];
  destruct (Q.min_spec (Qmax x lo) hi) as [[H3 H4]|[H3 H4]];
  unfold QHasMinMax.max, QHasMinMax.min in *; lra.
Qed.

Lemma clip_mid (x lo hi : Q) : lo <= x <= hi -> clip x lo hi == x.
Proof.
  intros Hx. unfold clip.
  destruct (Q.max_spec x lo) as [[H1 H2]|[H1 H2]];
  destruct (Q.min_spec (Qmax x lo) hi) as [[H3 H4]|[H3 H4]];
  unfold QHasMinMax.max, QHasMinMax.min in *; lra.
Qed.

Lemma clip_lt_hi (x lo hi : Q) : lo < hi -> x < hi -> clip x lo hi < hi.
Proof.
  intros Hlh Hx. unfold clip.
  destruct (Q.max_spec x lo) as [[H1 H2]|[H1 H2]];
  destruct (Q.min_spec (Qmax x lo) hi) as [[H3 H4]|[H3 H4]];
  unfold QHasMinMax.max, QHasMinMax.min in *; lra.
Qed.

(** [labels_binary = floor(clip(labels + 0.5, 0, 1))]: a label value is
    turned into 1 when it is at least 1/2 and into 0 otherwise. *)
Theorem binarize_threshold (x : Q) : binarize x = if Qle_bool (1#2) x then 1 else 0.
Proof.
  destruct (Qle_bool (1#2) x) eqn:E.
  - apply Qle_bool_iff in E. unfold binarize.
    assert (H : clip (x + (1#2)) 0 1 == 1) by (apply clip_above; lra).
    rewrite (Qfloor_comp _ _ H). reflexivity.
  - assert (Hx : x < 1#2).
    { apply Qnot_le_lt. intros H. apply Qle_bool_iff in H. congruence. }
    unfold binarize. set (y := clip (x + (1#2)) 0 1).
    assert (Hy : 0 <= y <= 1) by (apply clip_bounds; lra).
    assert (Hy1 : y < 1) by (apply clip_lt_hi; lra).
    pose proof (Qfloor_le y) as Hf1. pose proof (Qlt_floor y) as Hf2.
    assert (Ha : (Qfloor y < 1)%Z).
    { rewrite Zlt_Qlt. change (inject_Z 1) with 1. lra. }
    assert (Hb : (-1 < Qfloor y)%Z).
    { rewrite Zlt_Qlt. rewrite inject_Z_plus in Hf2. change (inject_Z 1) with 1 in Hf2.
      change (inject_Z (-1)) with (-1). lra. }
    replace (Qfloor y) with 0%Z by lia. reflexivity.
Qed.

Lemma inv_double_bounds (f : Q) : 1#20 <= f <= 19#20 -> 10#19 <= 1 / (2 * f) <= 10.
Proof.
  intros Hf. split.
  - apply Qle_shift_div_l; lra.
  - apply Qle_shift_div_r; lra.
Qed.

(** Whatever the labels and the mask product, [frac_pos] and [frac_neg] lie
    in [0.05, 0.95] and both class weights lie in [10/19, 10]: the
    weights never divide by zero. *)
Theorem class_weights_bounded (labels_binary error_scale : list Q) :
  let cw := class_weights labels_binary error_scale in
  1#20 <= frac_pos cw <= 19#20 /\ 1#20 <= frac_neg cw <= 19#20 /\
  10#19 <= w_pos cw <= 10 /\ 10#19 <= w_neg cw <= 10.
Proof.
  cbv zeta. unfold class_weights; simpl.
  set (f := clip _ (1#20) (19#20)).
  assert (Hf : 1#20 <= f <= 19#20) by (apply clip_bounds; lra).
  split; [exact Hf|]. split; [lra|].
  split; apply inv_double_bounds; lra.
Qed.

Lemma nth_error_mul_elems (a b : list Q) (i : nat) (x : Q) :
  nth_error (mul_elems a b) i = Some x ->
  exists u v, nth_error a i = Some u /\ nth_error b i = Some v /\ x = u * v.
Proof.
  revert b i. induction a as [|u a IH]; intros [|v b] [|i] H; simpl in *; try discriminate.
  - injection H as <-. eauto.
  - exact (IH b i H).
Qed.

Lemma mul_elems_length (a b : list Q) : length (mul_elems a b) = Nat.min (length a) (length b).
Proof. revert b. induction a as [|u a IH]; intros [|v b]; simpl; try done. rewrite IH. done. Qed.

(** A position that is zero stays zero through the masks. *)
Lemma apply_masks_zero_stays (b : Batch) (labels : NdArray) (ms : list Key) (es es' : list Q)
    (i : nat) :
  apply_masks b labels ms es = Ok es' ->
  (forall e, nth_error es i = Some e -> e == 0) ->
  forall e, nth_error es' i = Some e -> e == 0.
Proof.
  revert es. induction ms as [|m ms IH]; intros es Hrun Hz; simpl in Hrun.
  - injection Hrun as <-. exact Hz.
  - destruct (batch_get b m) as [mask|] eqn:Hm; [|discriminate]. simpl in Hrun.
    destruct (decide _) as [Hsh|Hsh]; [|discriminate].
    apply (IH _ Hrun). intros e He.
    destruct (nth_error_mul_elems _ _ _ _ He) as (u & v & Hu & Hv & ->).
    rewrite (Hz u Hu). lra.
Qed.

(** A mask that is zero at a position makes the masked-in product zero there. *)
Lemma apply_masks_zero (b : Batch) (labels : NdArray) (ms : list Key) (es es' : list Q)
    (m : Key) (mask : Volume) (i : nat) :
  apply_masks b labels ms es = Ok es' -> In m ms -> batch_get b m = Ok mask ->
  (forall z, nth_error (nd_data (vol_data mask)) i = Some z -> z == 0) ->
  forall e, nth_error es' i = Some e -> e == 0.
Proof.
  revert es. induction ms as [|m' ms IH]; intros es Hrun Hin Hm Hz; [destruct Hin|].
  simpl in Hrun. destruct (batch_get b m') as [mask'|] eqn:Hm'; [|discriminate]. simpl in Hrun.
  destruct (decide _) as [Hsh|Hsh]; [|discriminate].
  destruct Hin as [<-|Hin].
  - rewrite Hm in Hm'. injection Hm' as <-.
    apply (apply_masks_zero_stays _ _ _ _ _ _ Hrun). intros e He.
    destruct (nth_error_mul_elems _ _ _ _ He) as (u & v & Hu & Hv & ->).
    rewrite (Hz v Hv). lra.
  - exact (IH _ Hrun Hin Hm Hz).
Qed.

Lemma process_compute (n : BalanceLabels) (b b' : Batch) (request : BatchRequest)
    (n' : BalanceLabels) :
  bl_skip_next n = false -> process n b request = (Ok b', n') ->
  exists labels es, batch_get b (bl_labels n) = Ok labels /\
    mask_product b (vol_data labels) (bl_masks n) = Ok es /\
    batch_get b' (bl_scales n) =
      Ok (mkVolume (mkNdArray (nd_shape (vol_data labels))
                     (scale_data (map binarize (nd_data (vol_data labels))) es))
            (mkArraySpec (a_roi (vol_spec labels)) (a_voxel_size (bl_scales_spec n))
               (a_dtype (bl_scales_spec n)) (a_nonspatial (bl_scales_spec n)))) /\
    volumes b' = vol_set (volumes b) (bl_scales n)
      (mkVolume (mkNdArray (nd_shape (vol_data labels))
                     (scale_data (map binarize (nd_data (vol_data labels))) es))
            (mkArraySpec (a_roi (vol_spec labels)) (a_voxel_size (bl_scales_spec n))
               (a_dtype (bl_scales_spec n)) (a_nonspatial (bl_scales_spec n)))).
Proof.
  intros Hs Hrun. unfold process in Hrun. rewrite Hs in Hrun. injection Hrun as Hc _.
  unfold compute_scales in Hc.
  destruct (batch_get b (bl_labels n)) as [labels|] eqn:Hl; [|discriminate]. simpl in Hc.
  destruct (mask_product b (vol_data labels) (bl_masks n)) as [es|] eqn:Hm; [|discriminate].
  simpl in Hc. injection Hc as <-. exists labels, es. do 2 (split; [first [reflexivity|assumption]|]).
  split; [|reflexivity]. unfold batch_get; simpl. rewrite vol_lookup_set_eq. reflexivity.
Qed.

Lemma nth_error_scale_data (lb es : list Q) (i : nat) (y : Q) :
  nth_error (scale_data lb es) i = Some y ->
  exists e l, nth_error es i = Some e /\ nth_error lb i = Some l /\
    y = e * class_weight (class_weights lb es) l.
Proof.
  unfold scale_data. intros H.
  destruct (nth_error_mul_elems _ _ _ _ H) as (e & w & He & Hw & ->).
  rewrite nth_error_map in Hw. destruct (nth_error lb i) as [l|] eqn:Hl; simpl in Hw;
    [injection Hw as <-|discriminate].
  exists e, l. auto.
Qed.

Lemma class_weight_bounded (lb es : list Q) (l : Q) :
  10#19 <= class_weight (class_weights lb es) l <= 10.
Proof.
  destruct (class_weights_bounded lb es) as (_ & _ & Hp & Hn).
  unfold class_weight. destruct (Qle_bool (1#2) l); lra.
Qed.

(** A voxel that one of the configured masks sets to 0 gets scale 0 in the
    output [scales] array. *)
Theorem masked_out_scale_zero (n : BalanceLabels) (b b' : Batch) (request : BatchRequest)
    (n' : BalanceLabels) (m : Key) (mask out : Volume) (i : nat) (y : Q) :
  bl_skip_next n = false -> process n b request = (Ok b', n') ->
  In m (bl_masks n) -> batch_get b m = Ok mask ->
  (forall z, nth_error (nd_data (vol_data mask)) i = Some z -> z == 0) ->
  batch_get b' (bl_scales n) = Ok out -> nth_error (nd_data (vol_data out)) i = Some y ->
  y == 0.
Proof.
  intros Hs Hrun Hin Hm Hz Hout Hy.
  destruct (process_compute n b b' request n' Hs Hrun) as (labels & es & Hl & Hmp & Hb' & _).
  rewrite Hout in Hb'. injection Hb' as ->. simpl in Hy.
  destruct (nth_error_scale_data _ _ _ _ Hy) as (e & l & He & _ & ->).
  rewrite (apply_masks_zero _ _ _ _ _ _ _ _ Hmp Hin Hm Hz e He). lra.
Qed.

Lemma apply_masks_unit (b : Batch) (labels : NdArray) (ms : list Key) (es es' : list Q) :
  apply_masks b labels ms es = Ok es' ->
  Forall (fun x => 0 <= x <= 1) es ->
  (forall m mask, In m ms -> batch_get b m = Ok mask ->
     Forall (fun x => 0 <= x <= 1) (nd_data (vol_data mask))) ->
  Forall (fun x => 0 <= x <= 1) es'.
Proof.
  revert es. induction ms as [|m ms IH]; intros es Hrun Hes Hms; simpl in Hrun.
  - injection Hrun as <-. exact Hes.
  - destruct (batch_get b m) as [mask|] eqn:Hm; [|discriminate]. simpl in Hrun.
    destruct (decide _) as [Hsh|Hsh]; [|discriminate].
    apply (IH _ Hrun); [|intros m' mk Hin; apply Hms; right; exact Hin].
    specialize (Hms m mask (or_introl eq_refl) Hm).
    rewrite List.Forall_forall in Hes, Hms |- *. intros x Hx.
    apply (In_nth_error) in Hx as [i Hx].
    destruct (nth_error_mul_elems _ _ _ _ Hx) as (u & v & Hu & Hv & ->).
    apply nth_error_In in Hu, Hv. specialize (Hes u Hu). specialize (Hms v Hv).
    split.
    + apply Qmult_le_0_compat; lra.
    + apply (Qle_trans _ (1 * v)); [apply Qmult_le_compat_r; lra|lra].
Qed.

(** When every mask value lies in [0, 1], every output scale lies in
    [0, 10]. *)
Theorem scales_bounded (n : BalanceLabels) (b b' : Batch) (request : BatchRequest)
    (n' : BalanceLabels) (out : Volume) :
  bl_skip_next n = false -> process n b request = (Ok b', n') ->
  (forall m mask, In m (bl_masks n) -> batch_get b m = Ok mask ->
     Forall (fun x => 0 <= x <= 1) (nd_data (vol_data mask))) ->
  batch_get b' (bl_scales n) = Ok out ->
  Forall (fun y => 0 <= y <= 10) (nd_data (vol_data out)).
Proof.
  intros Hs Hrun Hms Hout.
  destruct (process_compute n b b' request n' Hs Hrun) as (labels & es & Hl & Hmp & Hb' & _).
  rewrite Hout in Hb'. injection Hb' as ->. simpl.
  assert (Hes : Forall (fun x => 0 <= x <= 1) es).
  { apply (apply_masks_unit _ _ _ _ _ Hmp); [|exact Hms].
    rewrite List.Forall_forall. intros x Hx. apply repeat_spec in Hx. subst. lra. }
  rewrite List.Forall_forall in Hes |- *. intros y Hy.
  apply In_nth_error in Hy as [i Hy].
  destruct (nth_error_scale_data _ _ _ _ Hy) as (e & l & He & _ & ->).
  apply nth_error_In in He. specialize (Hes e He).
  pose proof (class_weight_bounded (map binarize (nd_data (vol_data labels))) es l) as Hw.
  set (w := class_weight _ l) in *. split.
  - apply Qmult_le_0_compat; lra.
  - apply (Qle_trans _ (1 * w)); [apply Qmult_le_compat_r; lra|lra].
Qed.

Lemma binarize_01 (x : Q) : binarize x = 0 \/ binarize x = 1.
Proof. rewrite binarize_threshold. destruct (Qle_bool (1#2) x); auto. Qed.

Lemma scale_sums (cw : ClassWeights) (lb es : list Q) :
  length lb = length es -> Forall (fun x => x = 0 \/ x = 1) lb ->
  sumQ (mul_elems es (map (class_weight cw) lb))
    == w_pos cw * sumQ (mul_elems lb es) + w_neg cw * (sumQ es - sumQ (mul_elems lb es)) /\
  sumQ (mul_elems lb (mul_elems es (map (class_weight cw) lb)))
    == w_pos cw * sumQ (mul_elems lb es).
Proof.
  revert es. induction lb as [|l lb IH]; intros [|e es] Hlen F; simpl in Hlen; try discriminate.
  - unfold sumQ; simpl. split; ring.
  - injection Hlen as Hlen. pose proof (List.Forall_inv F) as Hl. pose proof (List.Forall_inv_tail F) as F'.
    destruct (IH es Hlen F') as [H1 H2].
    unfold sumQ in *; simpl. rewrite H1, H2. unfold class_weight.
    destruct Hl as [->| ->].
    + replace (Qle_bool (1#2) 0) with false by reflexivity. split; ring.
    + replace (Qle_bool (1#2) 1) with true by reflexivity. split; ring.
Qed.

(** When the masked-in positive fraction is not clamped (it lies in
    [0.05, 0.95]), the scales of the positive voxels sum to half the
    masked-in count and all scales sum to the masked-in count: positives
    and negatives carry equal total weight. *)
Theorem balance_halves (n : BalanceLabels) (b b' : Batch) (request : BatchRequest)
    (n' : BalanceLabels) (labels out : Volume) (es : list Q) :
  bl_skip_next n = false -> process n b request = (Ok b', n') ->
  batch_get b (bl_labels n) = Ok labels ->
  mask_product b (vol_data labels) (bl_masks n) = Ok es ->
  length es = length (nd_data (vol_data labels)) ->
  0 < sumQ es ->
  (1#20) * sumQ es <= sumQ (mul_elems (map binarize (nd_data (vol_data labels))) es)
    <= (19#20) * sumQ es ->
  batch_get b' (bl_scales n) = Ok out ->
  sumQ (mul_elems (map binarize (nd_data (vol_data labels))) (nd_data (vol_data out)))
    == sumQ es / 2 /\
  sumQ (nd_data (vol_data out)) == sumQ es.
Proof.
  intros Hs Hrun Hl Hm Hlen Hmi Hnp Hout.
  destruct (process_compute n b b' request n' Hs Hrun) as (labels0 & es0 & Hl0 & Hm0 & Hb' & _).
  rewrite Hl in Hl0. injection Hl0 as <-. rewrite Hm in Hm0. injection Hm0 as <-.
  rewrite Hout in Hb'. injection Hb' as ->. simpl.
  set (lb := map binarize (nd_data (vol_data labels))) in *.
  set (cw := class_weights lb es).
  set (mi := sumQ es) in *. set (np := sumQ (mul_elems lb es)) in *.
  assert (F : Forall (fun x => x = 0 \/ x = 1) lb).
  { unfold lb. rewrite List.Forall_map, List.Forall_forall. intros x _. apply binarize_01. }
  assert (Hlb : length lb = length es) by (unfold lb; rewrite length_map; lia).
  destruct (scale_sums cw lb es Hlb F) as [H1 H2].
  assert (Hf : frac_pos cw == np / mi).
  { unfold cw, class_weights; cbn [frac_pos].
    destruct (Qlt_le_dec 0 (sumQ es)) as [_|Hle]; [|unfold mi in Hmi; lra].
    apply clip_mid. split; [apply Qle_shift_div_l|apply Qle_shift_div_r]; lra. }
  assert (Hwp : w_pos cw == 1 / (2 * (np / mi))).
  { change (w_pos cw) with (1 / (2 * frac_pos cw)). rewrite Hf. reflexivity. }
  assert (Hwn : w_neg cw == 1 / (2 * (1 - np / mi))).
  { change (w_neg cw) with (1 / (2 * (1 - frac_pos cw))). rewrite Hf. reflexivity. }
  assert (Hnp0 : ~ np == 0) by lra.
  assert (Hmi0 : ~ mi == 0) by lra.
  assert (Hd : ~ mi - np == 0) by lra.
  unfold scale_data. fold cw. rewrite H1, H2, Hwp, Hwn.
  change (sumQ (mul_elems lb es)) with np. change (sumQ es) with mi. split.
  - field; auto.
  - field; repeat split; auto.
Qed.

Lemma key_eqb_eq (a b : Key) : key_eqb a b = true <-> a = b.
Proof.
  destruct a, b; simpl; split; intros H; try discriminate;
    try (apply String.eqb_eq in H; subst; reflexivity);
    injection H as ->; apply String.eqb_refl.
Qed.

Lemma vol_lookup_set_ne (vs : list (Key * Volume)) (k k' : Key) (v : Volume) :
  k' <> k -> vol_lookup (vol_set vs k v) k' = vol_lookup vs k'.
Proof.
  intros Hne. induction vs as [|[k0 v0] vs IH]; simpl.
  - destruct (key_eqb k k') eqn:E; [apply key_eqb_eq in E; congruence|reflexivity].
  - destruct (key_eqb k0 k) eqn:E; simpl.
    + apply key_eqb_eq in E. subst k0.
      destruct (key_eqb k k') eqn:E'; [apply key_eqb_eq in E'; congruence|reflexivity].
    + destruct (key_eqb k0 k'); [reflexivity|exact IH].
Qed.

(** [process] changes no volume of the batch but [scales]. *)
Theorem process_writes_only_scales (n : BalanceLabels) (b b' : Batch) (request : BatchRequest)
    (n' : BalanceLabels) (k : Key) :
  process n b request = (Ok b', n') -> k <> bl_scales n ->
  vol_lookup (volumes b') k = vol_lookup (volumes b) k.
Proof.
  intros Hrun Hk. destruct (bl_skip_next n) eqn:Hs.
  - unfold process in Hrun. rewrite Hs in Hrun. injection Hrun as <- _. reflexivity.
  - destruct (process_compute n b b' request n' Hs Hrun) as (labels & es & _ & _ & _ & ->).
    apply vol_lookup_set_ne. exact Hk.
Qed.

(** Without a labels volume in the batch, [process] raises [KeyError]
    ([batch.volumes[self.labels]]) and leaves the node unchanged. *)
Theorem process_missing_labels (n : BalanceLabels) (b : Batch) (request : BatchRequest) :
  bl_skip_next n = false -> vol_lookup (volumes b) (bl_labels n) = None ->
  process n b request = (Error KeyError, n).
Proof.
  intros Hs Hl. unfold process, compute_scales, batch_get. rewrite Hs, Hl. reflexivity.
Qed.

Lemma apply_masks_mismatch (b : Batch) (labels : NdArray) (ms : list Key) (es : list Q) :
  (forall m, In m ms -> exists v, batch_get b m = Ok v) ->
  (exists m v, In m ms /\ batch_get b m = Ok v /\ nd_shape (vol_data v) <> nd_shape labels) ->
  apply_masks b labels ms es = Error AssertionError.
Proof.
  revert es. induction ms as [|m ms IH]; intros es Hall (mb & vb & Hin & Hvb & Hne); [destruct Hin|].
  simpl. destruct (Hall m (or_introl eq_refl)) as [v Hv]. rewrite Hv. simpl.
  destruct (decide (nd_shape labels = nd_shape (vol_data v))) as [Heq|Heq]; [|reflexivity].
  apply IH; [intros m' Hm'; apply Hall; right; exact Hm'|].
  exists mb, vb. destruct Hin as [<-|Hin].
  - rewrite Hv in Hvb. injection Hvb as <-. congruence.
  - auto.
Qed.

Lemma apply_masks_missing (b : Batch) (labels : NdArray) (ms : list Key) (es : list Q) :
  (forall m v, In m ms -> batch_get b m = Ok v -> nd_shape (vol_data v) = nd_shape labels) ->
  (exists m, In m ms /\ batch_get b m = Error KeyError) ->
  apply_masks b labels ms es = Error KeyError.
Proof.
  revert es. induction ms as [|m ms IH]; intros es Hall (mb & Hin & Hmb); [destruct Hin|].
  simpl. destruct (batch_get b m) as [v|e] eqn:Hv.
  - simpl. rewrite (Hall m v (or_introl eq_refl) Hv).
    destruct (decide _) as [_|Hne]; [|congruence].
    apply IH; [intros m' v' Hm'; apply Hall; right; exact Hm'|].
    exists mb. destruct Hin as [<-|Hin]; [congruence|auto].
  - unfold batch_get in Hv. destruct (vol_lookup (volumes b) m); [discriminate|].
    injection Hv as <-. reflexivity.
Qed.

(** With the labels present: if all masks are present and one has a shape
    other than the labels' shape, [process] fails its assertion; if every
    present mask has the labels' shape but one is missing, it raises
    [KeyError].  The node is unchanged in both cases. *)
Theorem process_mask_errors (n : BalanceLabels) (b : Batch) (request : BatchRequest)
    (labels : Volume) :
  bl_skip_next n = false -> batch_get b (bl_labels n) = Ok labels ->
  ((forall m, In m (bl_masks n) -> exists v, batch_get b m = Ok v) ->
   (exists m v, In m (bl_masks n) /\ batch_get b m = Ok v /\
                nd_shape (vol_data v) <> nd_shape (vol_data labels)) ->
   process n b request = (Error AssertionError, n)) /\
  ((forall m v, In m (bl_masks n) -> batch_get b m = Ok v ->
                nd_shape (vol_data v) = nd_shape (vol_data labels)) ->
   (exists m, In m (bl_masks n) /\ vol_lookup (volumes b) m = None) ->
   process n b request = (Error KeyError, n)).
Proof.
  intros Hs Hl. unfold process, compute_scales, mask_product. rewrite Hs, Hl. simpl. split.
  - intros Hall Hbad. rewrite (apply_masks_mismatch _ _ _ _ Hall Hbad). reflexivity.
  - intros Hall (m & Hin & Hm). rewrite (apply_masks_missing _ _ _ _ Hall).
    + reflexivity.
    + exists m. split; [exact Hin|]. unfold batch_get. rewrite Hm. reflexivity.
Qed.

(** [setup] fails its assertions exactly when the labels or one of the
    masks is not provided upstream. *)
Theorem setup_asserts (n : BalanceLabels) (spec : SpecMap) :
  setup n spec = Error AssertionError <->
  spec_provided spec (bl_labels n) = false \/
  exists m, In m (bl_masks n) /\ spec_provided spec m = false.
Proof.
  unfold setup. destruct (spec_lookup spec (bl_labels n)) as [ls|] eqn:Hl.
  - assert (Hp : spec_provided spec (bl_labels n) = true)
      by (unfold spec_provided; rewrite Hl; reflexivity). rewrite Hp.
    destruct (forallb (spec_provided spec) (bl_masks n)) eqn:E; split.
    + discriminate.
    + intros [H|(m & Hin & Hm)]; [discriminate|].
      rewrite forallb_forall in E. rewrite (E m Hin) in Hm. discriminate.
    + intros _. right. apply Bool.not_true_iff_false in E.
      destruct (existsb (fun m => negb (spec_provided spec m)) (bl_masks n)) eqn:E2.
      * apply existsb_exists in E2 as (m & Hin & Hm). exists m. split; [exact Hin|].
        apply Bool.negb_true_iff. exact Hm.
      * exfalso. apply E. apply forallb_forall. intros m Hin.
        destruct (spec_provided spec m) eqn:Hm; [reflexivity|].
        assert (existsb (fun m => negb (spec_provided spec m)) (bl_masks n) = true)
          by (apply existsb_exists; exists m; rewrite Hm; auto). congruence.
    + reflexivity.
  - assert (Hp : spec_provided spec (bl_labels n) = false)
      by (unfold spec_provided; rewrite Hl; reflexivity). rewrite Hp.
    split; [intros _; left; reflexivity|reflexivity].
Qed.

(** After [setup], the [scales] volume written by [process] has the shape
    of the labels array, the ROI of the labels volume, and otherwise the
    provided labels spec with dtype float32. *)
Theorem setup_process_scales_spec (n n1 n2 : BalanceLabels) (spec : SpecMap) (ls : ArraySpec)
    (b b' : Batch) (request : BatchRequest) (labels out : Volume) :
  setup n spec = Ok n1 -> spec_lookup spec (bl_labels n) = Some ls ->
  bl_skip_next n = false -> process n1 b request = (Ok b', n2) ->
  batch_get b (bl_labels n) = Ok labels -> batch_get b' (bl_scales n) = Ok out ->
  nd_shape (vol_data out) = nd_shape (vol_data labels) /\
  vol_spec out = mkArraySpec (a_roi (vol_spec labels)) (a_voxel_size ls) (Some "float32"%string)
                   (a_nonspatial ls).
Proof.
  intros Hsetup Hls Hs Hrun Hl Hout.
  unfold setup in Hsetup. rewrite Hls in Hsetup.
  destruct (forallb _ _); [|discriminate]. injection Hsetup as <-.
  match type of Hrun with process ?n1 _ _ = _ =>
    assert (Hs1 : bl_skip_next n1 = false) by exact Hs end.
  destruct (process_compute _ b b' request n2 Hs1 Hrun) as (labels0 & es & Hl0 & _ & Hb' & _).
  simpl in Hl0, Hb'. rewrite Hl in Hl0. injection Hl0 as <-.
  rewrite Hout in Hb'. injection Hb' as ->. split; reflexivity.
Qed.

Lemma masked_out_scale_zero_witness :
  exists b' out y, process bl_example bl_batch BatchRequest_new = (Ok b', bl_example) /\
    batch_get b' (ArrayKey "scales") = Ok out /\
    nth_error (nd_data (vol_data out)) 2 = Some y /\ y == 0.
Proof.
  do 3 eexists. split; [reflexivity|]. split; [reflexivity|]. split; [reflexivity|].
  eapply (masked_out_scale_zero bl_example bl_batch _ BatchRequest_new bl_example
            (ArrayKey "mask") (vol_of [4%nat] [1; 1; 0; 1]) _ 2%nat).
  - reflexivity.
  - reflexivity.
  - left. reflexivity.
  - reflexivity.
  - intros z Hz. simpl in Hz. injection Hz as <-. reflexivity.
  - reflexivity.
  - reflexivity.
Defined.

Lemma scales_bounded_witness :
  exists b' out, process bl_example bl_batch BatchRequest_new = (Ok b', bl_example) /\
    batch_get b' (ArrayKey "scales") = Ok out /\
    Forall (fun y => 0 <= y <= 10) (nd_data (vol_data out)).
Proof.
  do 2 eexists. split; [reflexivity|]. split; [reflexivity|].
  eapply (scales_bounded bl_example bl_batch _ BatchRequest_new bl_example).
  - reflexivity.
  - reflexivity.
  - intros m mask [<-|[]] Hm. simpl in Hm. injection Hm as <-.
    repeat constructor; apply Qle_bool_imp_le; reflexivity.
  - reflexivity.
Defined.

Lemma balance_halves_witness :
  exists b' out es, process bl_example bl_batch BatchRequest_new = (Ok b', bl_example) /\
    batch_get b' (ArrayKey "scales") = Ok out /\
    mask_product bl_batch (mkNdArray [4%nat] [1; 0; 1; 0]) [ArrayKey "mask"] = Ok es /\
    sumQ (mul_elems (map binarize [1; 0; 1; 0]) (nd_data (vol_data out))) == sumQ es / 2 /\
    sumQ (nd_data (vol_data out)) == sumQ es.
Proof.
  do 3 eexists. split; [reflexivity|]. split; [reflexivity|]. split; [reflexivity|].
  eapply (balance_halves bl_example bl_batch _ BatchRequest_new bl_example
           (vol_of [4%nat] [1; 0; 1; 0])).
  - reflexivity.
  - reflexivity.
  - reflexivity.
  - reflexivity.
  - reflexivity.
  - vm_compute. reflexivity.
  - split; apply Qle_bool_imp_le; vm_compute; reflexivity.
  - reflexivity.
Defined.

Lemma process_writes_only_scales_witness :
  exists b', process bl_example bl_batch BatchRequest_new = (Ok b', bl_example) /\
    vol_lookup (volumes b') (ArrayKey "mask") = vol_lookup (volumes bl_batch) (ArrayKey "mask").
Proof.
  eexists. split; [reflexivity|].
  eapply (process_writes_only_scales bl_example bl_batch _ BatchRequest_new bl_example).
  - reflexivity.
  - discriminate.
Defined.

Lemma process_missing_labels_witness :
  process bl_example (mkBatch []) BatchRequest_new = (Error KeyError, bl_example).
Proof. apply process_missing_labels; reflexivity. Defined.

Lemma process_mask_errors_witness :
  process bl_example bl_batch_bad_mask BatchRequest_new = (Error AssertionError, bl_example) /\
  process bl_example bl_batch_no_mask BatchRequest_new = (Error KeyError, bl_example).
Proof.
  split.
  - apply (proj1 (process_mask_errors bl_example bl_batch_bad_mask BatchRequest_new
                    (vol_of [4%nat] [1; 0; 1; 0]) eq_refl eq_refl)).
    + intros m [<-|[]]. eexists. reflexivity.
    + exists (ArrayKey "mask"), (vol_of [3%nat] [1; 1; 1]).
      split; [left; reflexivity|]. split; [reflexivity|]. discriminate.
  - apply (proj2 (process_mask_errors bl_example bl_batch_no_mask BatchRequest_new
                    (vol_of [4%nat] [1; 0; 1; 0]) eq_refl eq_refl)).
    + intros m v [<-|[]] Hv. discriminate.
    + exists (ArrayKey "mask"). split; [left|]; reflexivity.
Defined.

Lemma setup_process_scales_spec_witness :
  exists n1 b' out, setup bl_example bl_upstream = Ok n1 /\
    process n1 bl_batch BatchRequest_new = (Ok b', n1) /\
    batch_get b' (ArrayKey "scales") = Ok out /\
    nd_shape (vol_data out) = [4%nat] /\
    vol_spec out = mkArraySpec None (Some [2%Z]) (Some "float32"%string) false.
Proof.
  do 3 eexists. split; [reflexivity|]. split; [reflexivity|]. split; [reflexivity|].
  refine (setup_process_scales_spec bl_example _ _ bl_upstream _ bl_batch _ BatchRequest_new
            (vol_of [4%nat] [1; 0; 1; 0]) _ _ eq_refl eq_refl _ eq_refl _).
  all: reflexivity.
Defined.
